(** * reviewer.py: hunk splitting and review aggregation

    A shallow embedding of [src/reviewer.py] (class [AIReviewer]) and the
    properties of its diff splitter, its review client and its report
    loop.

    Python values are modelled as follows.
    - A [str] is a list of Unicode code points ([N]); [len] is [length].
    - [re.split] with the splitter's pattern is written out as the scan the
      regex engine performs for that pattern.
    - The inference endpoint and the shell are external: their answers are
      parameters of the reviewer, and everything a run does to the outside
      (console, progress display, shell, endpoint, report file) is recorded
      as an [event] of the run.
    - Exceptions are results of type [result]; statements that touch the
      reviewer object or the outside world live in the monad [M].

    The first part holds the definitions, in the order of the source; the
    second part the properties. *)

From Stdlib Require Import NArith ZArith Bool Ascii String Lia Arith List.
From Stdlib Require Import DecimalString.
From Equations Require Import Equations.
From Equations.Prop Require Import Logic.
Import ListNotations.

Set Equations Transparent.

(** ** Python strings *)

Module PyStr.

Definition char := N.
Definition str := list char.

(** A literal of the source, as code points. *)
Definition lit (s : string) : str :=
  map N_of_ascii (list_ascii_of_string s).

Definition NL : char := 10%N.
Definition AT : char := 64%N.

(** [str.isspace] on one character, which is also the class [\s] of [re]
    on a [str] pattern. *)
Definition is_space (c : char) : bool :=
  ((9 <=? c) && (c <=? 13) || (28 <=? c) && (c <=? 32)
   || (c =? 133) || (c =? 160) || (c =? 5760)
   || (8192 <=? c) && (c <=? 8202)
   || (c =? 8232) || (c =? 8233) || (c =? 8239) || (c =? 8287)
   || (c =? 12288))%N.

(** [s.startswith(p)] *)
Fixpoint startswith (p s : str) : bool :=
  match p, s with
  | [], _ => true
  | _ :: _, [] => false
  | a :: p', b :: s' => (a =? b)%N && startswith p' s'
  end.

(** [p in s] *)
Fixpoint str_in (p s : str) : bool :=
  startswith p s ||
  match s with
  | [] => false
  | _ :: s' => str_in p s'
  end.

(** [s.endswith(p)] *)
Definition endswith (p s : str) : bool :=
  startswith (rev p) (rev s).

(** [sep.join(l)] *)
Fixpoint join (sep : str) (l : list str) : str :=
  match l with
  | [] => []
  | [x] => x
  | x :: rest => x ++ sep ++ join sep rest
  end.

(** [s.split(sep)] for a one-character separator. *)
Fixpoint split_on (sep : char) (s : str) : list str :=
  match s with
  | [] => [[]]
  | c :: s' =>
      if (c =? sep)%N then [] :: split_on sep s'
      else match split_on sep s' with
           | l :: ls => (c :: l) :: ls
           | [] => [[c]]
           end
  end.

Fixpoint lstrip (s : str) : str :=
  match s with
  | c :: s' => if is_space c then lstrip s' else s
  | [] => []
  end.

(** [s.strip()] *)
Definition strip (s : str) : str :=
  rev (lstrip (rev (lstrip s))).

(** [str(n)] for a non-negative integer. *)
Definition str_of_nat (n : nat) : str :=
  lit (NilEmpty.string_of_uint (Nat.to_uint n)).

End PyStr.
Import PyStr.

(** ** The hunk-header pattern

    [re.split(r'(^@@\s.*?\s@@)', diff_content, flags=re.MULTILINE)].

    With [re.MULTILINE], [^] matches at the start of the text and after each
    newline.  [\s] is one whitespace character, the newline included.  [.]
    is any character but the newline, and [.*?] takes as few of them as
    possible. *)

(** The pattern after its first three characters: [.*?\s@@], tried at [s].
    The engine tries [\s@@] first and lets [.] take one more character
    only when that fails.  The result is the text matched and the rest. *)
Fixpoint match_lazy (s : str) : option (str * str) :=
  match s with
  | [] => None
  | c :: s' =>
      if is_space c && startswith [AT; AT] s' then
        Some ([c; AT; AT], skipn 2 s')
      else if (c =? NL)%N then None
      else match match_lazy s' with
           | Some (m, rest) => Some (c :: m, rest)
           | None => None
           end
  end.

(** The pattern [@@\s.*?\s@@] tried at the start of [s] (the caller has
    checked [^]). *)
Definition match_header (s : str) : option (str * str) :=
  match s with
  | a :: b :: c :: s' =>
      if (a =? AT)%N && (b =? AT)%N && is_space c then
        match match_lazy s' with
        | Some (m, rest) => Some (a :: b :: c :: m, rest)
        | None => None
        end
      else None
  | _ => None
  end.

(** The scan of [re.split]: [bol] tells whether [^] matches at the current
    position, [seg] is the text since the last match, reversed.  The result
    alternates the texts between matches and the matches themselves (the
    pattern has one capturing group), starting and ending with a text.  A
    match has at least six characters, so the scan resumes on a shorter
    text. *)
Equations? re_split_from (bol : bool) (seg : str) (s : str) : list str
  by wf (length s) lt :=
  re_split_from bol seg [] := [rev seg];
  re_split_from true seg (c :: s') with inspect (match_header (c :: s')) => {
    | exist _ (Some (m, rest)) _ := rev seg :: m :: re_split_from false [] rest;
    | exist _ None _ := re_split_from (c =? NL)%N (c :: seg) s' };
  re_split_from false seg (c :: s') := re_split_from (c =? NL)%N (c :: seg) s'.
Proof.
  assert (forall t m' r', match_lazy t = Some (m', r') -> length r' < length t)
      as Hlazy.
    { clear. induction t as [|x t IH]; intros m' r'; cbn [match_lazy];
        [discriminate|].
      destruct (is_space x && startswith [AT; AT] t).
      - intros H; inversion H; subst. destruct t as [|? [|? ?]]; simpl; lia.
      - destruct (x =? NL)%N; [discriminate|].
        destruct (match_lazy t) as [[m1 r1]|] eqn:E; [|discriminate].
        intros H; inversion H; subst. specialize (IH _ _ eq_refl). simpl. lia. }
    destruct s' as [|b [|c' t]]; cbn [match_header] in e; try discriminate.
    destruct ((c =? AT)%N && (b =? AT)%N && is_space c'); [|discriminate].
    destruct (match_lazy t) as [[m1 r1]|] eqn:E; [|discriminate].
    inversion e; subst. apply Hlazy in E. simpl. lia.
Qed.

Definition re_split (diff_content : str) : list str :=
  re_split_from true [] diff_content.

(** ** [split_into_hunks] *)

(** Lines 57-60: [hunks[1:]] taken two at a time, a header and the text
    after it (the empty string when the list ends on a header). *)
Fixpoint assemble (file_header : str) (rest : list str) : list str :=
  match rest with
  | [] => []
  | [header] => [file_header ++ [NL] ++ header ++ []]
  | header :: code :: rest' =>
      (file_header ++ [NL] ++ header ++ code) :: assemble file_header rest'
  end.

Definition split_into_hunks (diff_content : str) : list str :=
  let hunks := re_split diff_content in
  if 1 <? length hunks then
    match hunks with
    | file_header :: rest => assemble file_header rest
    | [] => []
    end
  else [diff_content].

(** ** The reply of the inference endpoint *)

(** A decoded JSON document, as [resp.json()] returns it.  Of a float the
    code only tests whether it is zero. *)
#[warnings="-register-all"]
Inductive json :=
| JNull
| JBool (b : bool)
| JInt (z : Z)
| JFloat (is_zero : bool)
| JStr (s : str)
| JList (l : list json)
| JDict (items : list (str * json)).

Definition type_name (j : json) : string :=
  match j with
  | JNull => "NoneType"
  | JBool _ => "bool"
  | JInt _ => "int"
  | JFloat _ => "float"
  | JStr _ => "str"
  | JList _ => "list"
  | JDict _ => "dict"
  end.

(** Truth value of an object in [if choices:]. *)
Definition truthy (j : json) : bool :=
  match j with
  | JNull => false
  | JBool b => b
  | JInt z => negb (z =? 0)%Z
  | JFloat is_zero => negb is_zero
  | JStr s => negb (length s =? 0)
  | JList l => negb (length l =? 0)
  | JDict items => negb (length items =? 0)
  end.

Definition str_eqb (a b : str) : bool :=
  if list_eq_dec N.eq_dec a b then true else false.

Fixpoint dict_lookup (key : str) (items : list (str * json)) : option json :=
  match items with
  | [] => None
  | (k, v) :: rest => if str_eqb k key then Some v else dict_lookup key rest
  end.

(** What the body of a [try] block produces: a value, or an exception of
    which the handler reads [str(e)]. *)
Inductive attempt (A : Type) :=
| Done (a : A)
| Raised (msg : str).
Arguments Done {A} a.
Arguments Raised {A} msg.

Definition attempt_bind {A B} (c : attempt A) (k : A -> attempt B) : attempt B :=
  match c with
  | Done a => k a
  | Raised msg => Raised msg
  end.

(** [j.get(key, default)]: only a dict has the method. *)
Definition py_get (j : json) (key : string) (default : json) : attempt json :=
  match j with
  | JDict items =>
      Done (match dict_lookup (lit key) items with
            | Some v => v
            | None => default
            end)
  | _ => Raised (lit "'" ++ lit (type_name j) ++ lit "' object has no attribute 'get'")
  end.

(** [j[0]] *)
Definition py_first (j : json) : attempt json :=
  match j with
  | JList (x :: _) => Done x
  | JList [] => Raised (lit "list index out of range")
  | JStr (c :: _) => Done (JStr [c])
  | JStr [] => Raised (lit "string index out of range")
  | JDict _ => Raised (lit "0")
  | _ => Raised (lit "'" ++ lit (type_name j) ++ lit "' object is not subscriptable")
  end.

(** [j.strip()] *)
Definition py_strip (j : json) : attempt str :=
  match j with
  | JStr s => Done (strip s)
  | _ => Raised (lit "'" ++ lit (type_name j) ++ lit "' object has no attribute 'strip'")
  end.

(** Lines 95-99. *)
Definition extract_content (body : json) : attempt str :=
  attempt_bind (py_get body "choices" (JList [])) (fun choices =>
  if truthy choices then
    attempt_bind (py_first choices) (fun first =>
    attempt_bind (py_get first "message" (JDict [])) (fun message =>
    attempt_bind (py_get message "content" (JStr [])) py_strip))
  else
    attempt_bind (py_get body "response" (JStr [])) py_strip).

(** The outcome of one exchange with the endpoint: [requests.post] raises
    (line 92), [raise_for_status] raises (line 93), [resp.json()] raises
    (line 95), each with the text [str(e)] of the exception, or the reply
    has a JSON body. *)
Inductive http_result :=
| PostRaises (msg : str)
| StatusRaises (msg : str)
| JsonRaises (msg : str)
| JsonBody (body : json).

Definition try_block (r : http_result) : attempt str :=
  match r with
  | PostRaises msg => Raised msg
  | StatusRaises msg => Raised msg
  | JsonRaises msg => Raised msg
  | JsonBody body => extract_content body
  end.

(** Lines 91-101: the text [ask_llm] returns for an outcome. *)
Definition review_of (r : http_result) : str :=
  match try_block r with
  | Done text => text
  | Raised msg => lit "LLM Error: " ++ msg
  end.

Definition LGTM : str := lit "LGTM".

(** ** Effects *)

(** What a run does to the outside world, in order. *)
Inductive event :=
| ConsolePrint (text : str)
| ShellCommand (cmd : str)
| ProgressAddTask (description : str) (total : nat)
| ProgressUpdate (description : str)
| ProgressAdvance
| HttpPost (file_name content : str) (is_partial : bool)
| WriteFile (path content : str).

(** The fields of the [AIReviewer] object. *)
Record AIReviewer := {
  target_branch : str;
  source_branch : str;
  report_lines : list str
}.

Record state := {
  self : AIReviewer;
  trace : list event
}.

(** Exceptions that leave [generate_report]. *)
Inductive exn :=
| NameError (name : string)
| UnboundLocalError (name : string)
| SystemExit (code : Z).

Inductive result (A : Type) :=
| Ok (a : A)
| Raise (e : exn).
Arguments Ok {A} a.
Arguments Raise {A} e.

Definition M (A : Type) : Type := state -> result A * state.

Definition ret {A} (a : A) : M A := fun st => (Ok a, st).

Definition raise {A} (e : exn) : M A := fun st => (Raise e, st).

Definition bind {A B} (c : M A) (k : A -> M B) : M B :=
  fun st =>
    match c st with
    | (Ok a, st') => k a st'
    | (Raise e, st') => (Raise e, st')
    end.

Declare Scope py_scope.
Delimit Scope py_scope with py.
Notation "x <- c ;; k" := (bind c (fun x => k))
  (at level 61, c at next level, right associativity) : py_scope.
Notation "c ;; k" := (bind c (fun _ => k))
  (at level 61, right associativity) : py_scope.
Open Scope py_scope.

(** The state after one more event. *)
Definition log (e : event) (st : state) : state :=
  {| self := self st; trace := trace st ++ [e] |}.

Definition emit (e : event) : M unit :=
  fun st => (Ok tt, log e st).

(** [self.report_lines.append(line)] *)
Definition report_append (line : str) : M unit :=
  fun st =>
    (Ok tt,
     {| self := {| target_branch := target_branch (self st);
                   source_branch := source_branch (self st);
                   report_lines := report_lines (self st) ++ [line] |};
        trace := trace st |}).

Definition get_self : M AIReviewer := fun st => (Ok (self st), st).

(** Reading a name inside an f-string.  [scope] gives the names that hold
    strings; a name bound nowhere raises [NameError]. *)
Fixpoint scope_lookup (scope : list (string * str)) (name : string) : option str :=
  match scope with
  | [] => None
  | (x, v) :: rest => if String.eqb x name then Some v else scope_lookup rest name
  end.

Definition read_name (scope : list (string * str)) (name : string) : M str :=
  match scope_lookup scope name with
  | Some v => ret v
  | None => raise (NameError name)
  end.

(** ** The reviewer *)

Inductive shell_result :=
| Output (stdout : str)
| CalledProcessError (msg : str).

Section Reviewer.

(** [CHUNK_LIMIT = int(os.getenv("CHUNK_LIMIT"))], a Python integer. *)
Variable CHUNK_LIMIT : Z.

(** The endpoint at [OLLAMA_URL]: its answer to a request, which may depend
    on everything the run did before.  The prompt of lines 70-83 and the
    payload of lines 85-89 are fixed by the three arguments of [ask_llm] and
    the constant [AI_MODEL], so the request is given by these arguments. *)
Variable endpoint : list event -> str -> str -> bool -> http_result.

(** [subprocess.check_output(cmd, shell=True).decode("utf-8")]: the text a
    command prints, or the [CalledProcessError] of a command that fails,
    with its text [str(e)]. *)
Variable shell : list event -> str -> shell_result.

(** Lines 26-33. *)
Definition run_command (cmd : str) : M str :=
  fun st =>
    let st' := log (ShellCommand cmd) st in
    match shell (trace st) cmd with
    | Output stdout => (Ok (strip stdout), st')
    | CalledProcessError msg =>
        (emit (ConsolePrint (lit "[bold red]Git Error:[/bold red] " ++ msg)) ;;
         raise (SystemExit 1)) st'
    end.

Definition excluded_suffixes : list str :=
  [lit ".lock"; lit ".png"; lit ".jpg"; lit ".svg"].

(** Lines 35-38. *)
Definition get_changed_files (merge_base : str) : M (list str) :=
  me <- get_self ;;
  stats <- run_command (lit "git diff --name-only " ++ merge_base ++ lit " "
                        ++ source_branch me) ;;
  ret (filter (fun f => negb (length f =? 0)
                        && negb (existsb (fun suffix => endswith suffix f)
                                         excluded_suffixes))
              (split_on NL stats)).

(** Lines 40-42. *)
Definition get_file_diff (merge_base file_name : str) : M str :=
  me <- get_self ;;
  run_command (lit "git diff " ++ merge_base ++ lit " " ++ source_branch me
               ++ lit " -- " ++ file_name).

(** Lines 66-101: one request, and the text made of its outcome. *)
Definition ask_llm (file_name content : str) (is_partial : bool) : M str :=
  fun st =>
    (Ok (review_of (endpoint (trace st) file_name content is_partial)),
     log (HttpPost file_name content is_partial) st).

(** The local variables of [generate_report] that hold strings while the
    body of the hunk loop runs.  The other names in scope there hold other
    objects (the locals [self], [files], [progress], [task], [hunks],
    [file_comments] and [i]) or are globals of the module (its imports,
    [OLLAMA_URL], [AI_MODEL], [CHUNK_LIMIT], [console], [AIReviewer]) and
    builtins; the module binds no name [filename]. *)
Definition hunk_loop_scope (merge_base file_name raw_diff hunk : str)
  : list (string * str) :=
  [("merge_base", merge_base); ("file_name", file_name);
   ("raw_diff", raw_diff); ("hunk", hunk)]%string.

(** Line 133: the description
    [f"Reviewing {filename} (Hunk {i+1}/{len(hunks)})..."]. *)
Definition hunk_description (scope : list (string * str)) (i len_hunks : nat)
  : M str :=
  filename <- read_name scope "filename" ;;
  ret (lit "Reviewing " ++ filename ++ lit " (Hunk " ++ str_of_nat (i + 1)
       ++ lit "/" ++ str_of_nat len_hunks ++ lit ")...").

(** Line 136: [f"**Hunk {i+1}:**\n{review}"]. *)
Definition hunk_comment (i : nat) (review : str) : str :=
  lit "**Hunk " ++ str_of_nat (i + 1) ++ lit ":**" ++ [NL] ++ review.

(** Lines 135-136. *)
Definition collect (i : nat) (review : str) (file_comments : list str)
  : list str :=
  if negb (str_in LGTM review) then file_comments ++ [hunk_comment i review]
  else file_comments.

(** Line 138. *)
Definition merge_comments (file_comments : list str) : str :=
  match file_comments with
  | [] => LGTM
  | _ :: _ => join [NL; NL] file_comments
  end.

(** Lines 134-138: the review of one hunk; the result is [file_comments]
    and [final_review] after it. *)
Definition review_hunk (file_name : str) (i : nat) (hunk : str)
    (file_comments : list str) : M (list str * str) :=
  review <- ask_llm file_name hunk true ;;
  let file_comments := collect i review file_comments in
  ret (file_comments, merge_comments file_comments).

(** The review of lines 134-138 has been made of the hunks [hunks], in this
    order and from index [i] on; [reviews] are the reviews of the hunks and
    [file_comments'] the comments collected after the last one. *)
Inductive hunk_reviews (file_name : str)
  : nat -> list str -> list str -> state -> list str -> list str -> state
    -> Prop :=
| hunk_reviews_nil i file_comments st :
    hunk_reviews file_name i [] file_comments st [] file_comments st
| hunk_reviews_cons i hunk rest file_comments st file_comments1 merged st1
    reviews file_comments2 st2 :
    review_hunk file_name i hunk file_comments st
    = (Ok (file_comments1, merged), st1) ->
    hunk_reviews file_name (S i) rest file_comments1 st1 reviews
      file_comments2 st2 ->
    hunk_reviews file_name i (hunk :: rest) file_comments st
      (review_of (endpoint (trace st) file_name hunk true) :: reviews)
      file_comments2 st2.

(** Lines 132-138: the loop over [enumerate(hunks)], from index [i] on.
    [final_review] is the local variable of that name, [None] while it is
    unbound. *)
Fixpoint review_hunks (merge_base file_name raw_diff : str) (len_hunks : nat)
    (hunks : list str) (i : nat) (file_comments : list str)
    (final_review : option str) : M (option str) :=
  match hunks with
  | [] => ret final_review
  | hunk :: rest =>
      description <- hunk_description
                       (hunk_loop_scope merge_base file_name raw_diff hunk)
                       i len_hunks ;;
      emit (ProgressUpdate description) ;;
      step <- review_hunk file_name i hunk file_comments ;;
      review_hunks merge_base file_name raw_diff len_hunks rest (S i)
        (fst step) (Some (snd step))
  end.

(** Lines 128-140. *)
Definition review_diff (merge_base file_name raw_diff : str)
    (final_review : option str) : M (option str) :=
  if (CHUNK_LIMIT <? Z.of_nat (length raw_diff))%Z then
    let hunks := split_into_hunks raw_diff in
    review_hunks merge_base file_name raw_diff (length hunks) hunks 0 []
      final_review
  else
    review <- ask_llm file_name raw_diff false ;;
    ret (Some review).

(** Line 144: [f"## `{file_name}`\n{final_review}\n"]. *)
Definition report_line (file_name final_review : str) : str :=
  lit "## `" ++ file_name ++ lit "`" ++ [NL] ++ final_review ++ [NL].

(** Lines 143-147. *)
Definition store_result (file_name : str) (final_review : option str) : M unit :=
  match final_review with
  | None => raise (UnboundLocalError "final_review")
  | Some final_review =>
      if negb (str_in LGTM final_review) then
        report_append (report_line file_name final_review) ;;
        emit (ConsolePrint (lit "[bold red]Issues in " ++ file_name
                            ++ lit "[/bold red]"))
      else
        emit (ConsolePrint (lit "[bold green]LGTM for " ++ file_name
                            ++ lit "[/bold green]"))
  end.

(** Lines 123-150: the body of the loop over [files]. *)
Definition review_file (merge_base file_name : str)
    (final_review : option str) : M (option str) :=
  emit (ProgressUpdate (lit "Reviewing " ++ file_name ++ lit "...")) ;;
  raw_diff <- get_file_diff merge_base file_name ;;
  final_review <- review_diff merge_base file_name raw_diff final_review ;;
  store_result file_name final_review ;;
  emit ProgressAdvance ;;
  ret final_review.

(** Lines 122-150. *)
Fixpoint review_files (merge_base : str) (files : list str)
    (final_review : option str) : M unit :=
  match files with
  | [] => ret tt
  | file_name :: rest =>
      final_review <- review_file merge_base file_name final_review ;;
      review_files merge_base rest final_review
  end.

(** The loop has reviewed the files [files] in this order, from the state
    [st] on, and [reviews] are their final reviews. *)
Inductive reviews_of (merge_base : str)
  : list str -> option str -> state -> list str -> state -> Prop :=
| reviews_of_nil final_review st :
    reviews_of merge_base [] final_review st [] st
| reviews_of_cons file_name files final_review st review st1 reviews st2 :
    review_file merge_base file_name final_review st = (Ok (Some review), st1) ->
    reviews_of merge_base files (Some review) st1 reviews st2 ->
    reviews_of merge_base (file_name :: files) final_review st
      (review :: reviews) st2.

(** Lines 156-166. *)
Definition save_report : M unit :=
  me <- get_self ;;
  match report_lines me with
  | [] =>
      emit (ConsolePrint ([NL] ++ lit "[bold green] No issues found. The code looks great![/bold green]"))
  | _ :: _ =>
      let content := lit "# AI Code Review: " ++ source_branch me ++ [NL; NL]
                     ++ join ([NL] ++ lit "---" ++ [NL]) (report_lines me) in
      emit (WriteFile (lit "PR_REVIEW.md") content) ;;
      emit (ConsolePrint ([NL] ++ lit "[bold yellow]Review Complete![/bold yellow] Report saved to: [underline]PR_REVIEW.md[/underline]"))
  end.

(** Lines 103-153. *)
Definition generate_report : M unit :=
  me <- get_self ;;
  emit (ConsolePrint (lit "[bold blue]Starting Review:[/bold blue] "
                      ++ target_branch me ++ lit " <- " ++ source_branch me)) ;;
  merge_base <- run_command (lit "git merge-base origin/" ++ target_branch me
                             ++ lit " " ++ source_branch me) ;;
  files <- get_changed_files merge_base ;;
  match files with
  | [] => emit (ConsolePrint (lit "[bold yellow]No changes detected.[/bold yellow]"))
  | _ :: _ =>
      emit (ProgressAddTask (lit "[green]Analyzing files...") (length files)) ;;
      review_files merge_base files None ;;
      save_report
  end.

End Reviewer.

(** [AIReviewer(target_branch, source_branch)], lines 21-24, and the start
    of a run. *)
Definition new_reviewer (target_branch source_branch : str) : AIReviewer :=
  {| target_branch := target_branch;
     source_branch := source_branch;
     report_lines := [] |}.

Definition start (target_branch source_branch : str) : state :=
  {| self := new_reviewer target_branch source_branch; trace := [] |}.

(** ** Vocabulary of the specification *)

(** The verdict the code reads off a review text: the tests of lines 135
    and 143. *)
Inductive ReviewVerdict :=
| CLEAN
| FLAGGED (text : str).

Definition verdict_of (review : str) : ReviewVerdict :=
  if str_in LGTM review then CLEAN else FLAGGED review.

(** The lines of a text, for the anchor [^]: the text between newlines. *)
Definition lines (text : str) : list str := split_on NL text.

(** A hunk-header line: a line that matches the pattern by itself. *)
Definition is_hunk_header_line (line : str) : bool :=
  match match_header line with
  | Some _ => true
  | None => false
  end.

Definition count_hunk_header_lines (text : str) : nat :=
  length (filter is_hunk_header_line (lines text)).

Fixpoint from_first_header_line (ls : list str) : list str :=
  match ls with
  | [] => []
  | l :: rest => if is_hunk_header_line l then ls else from_first_header_line rest
  end.

(** The text from its first hunk-header line to its end. *)
Definition text_from_first_header (text : str) : str :=
  join [NL] (from_first_header_line (lines text)).

(** The parts of the result of [re.split]: the text before the first
    match, the matches, and each match with the text after it. *)
Definition leading_segment (text : str) : str := hd [] (re_split text).

Fixpoint matches_of (rest : list str) : list str :=
  match rest with
  | [] => []
  | [header] => [header]
  | header :: _ :: rest' => header :: matches_of rest'
  end.

Fixpoint blocks_of (rest : list str) : list str :=
  match rest with
  | [] => []
  | [header] => [header]
  | header :: code :: rest' => (header ++ code) :: blocks_of rest'
  end.

Definition header_matches (text : str) : list str :=
  matches_of (tl (re_split text)).

Definition change_blocks (text : str) : list str :=
  blocks_of (tl (re_split text)).

(** A match that stays on one line. *)
Definition single_line (m : str) : bool := negb (existsb (N.eqb NL) m).

(** The change block of a unit: the unit without the leading segment and
    the newline the splitter puts after it. *)
Definition change_block (file_header unit : str) : str :=
  skipn (length file_header + 1) unit.

(** [file_comments] after the loop has seen the reviews [reviews] of the
    hunks from index [i] on (lines 135-136, in loop order). *)
Fixpoint collect_all (i : nat) (reviews : list str) (file_comments : list str)
  : list str :=
  match reviews with
  | [] => file_comments
  | review :: rest => collect_all (S i) rest (collect i review file_comments)
  end.

(** The labelled comments of the flagged reviews among [reviews], the
    reviews of the hunks from index [i] on, in hunk order. *)
Fixpoint flagged_comments (i : nat) (reviews : list str) : list str :=
  match reviews with
  | [] => []
  | review :: rest =>
      (if str_in LGTM review then [] else [hunk_comment i review])
      ++ flagged_comments (S i) rest
  end.

(** The entry a reviewed file adds to the report: none when its final
    review is clean. *)
Definition entry_of (file_name final_review : str) : list str :=
  match verdict_of final_review with
  | CLEAN => []
  | FLAGGED text => [report_line file_name text]
  end.

(** The entries of the files [reviewed], each with its final review. *)
Definition report_entries (reviewed : list (str * str)) : list str :=
  flat_map (fun fr => entry_of (fst fr) (snd fr)) reviewed.

Definition with_entries (me : AIReviewer) (entries : list str) : AIReviewer :=
  {| target_branch := target_branch me;
     source_branch := source_branch me;
     report_lines := report_lines me ++ entries |}.

(** What [save_report] puts out: the file, and two notices, which are the
    only lines on the console that start with a newline. *)
Definition no_issues_notice : event :=
  ConsolePrint ([NL] ++ lit "[bold green] No issues found. The code looks great![/bold green]").

Definition saved_notice : event :=
  ConsolePrint ([NL] ++ lit "[bold yellow]Review Complete![/bold yellow] Report saved to: [underline]PR_REVIEW.md[/underline]").

Definition no_changes_notice : event :=
  ConsolePrint (lit "[bold yellow]No changes detected.[/bold yellow]").

Definition report_file (me : AIReviewer) : event :=
  WriteFile (lit "PR_REVIEW.md")
    (lit "# AI Code Review: " ++ source_branch me ++ [NL; NL]
     ++ join ([NL] ++ lit "---" ++ [NL]) (report_lines me)).

Definition is_report_output (e : event) : bool :=
  match e with
  | WriteFile _ _ => true
  | ConsolePrint (c :: _) => (c =? NL)%N
  | _ => false
  end.

Definition report_outputs (events : list event) : list event :=
  filter is_report_output events.

(** A statement that leaves the reviewer object alone and puts out nothing
    of the report. *)
Definition quiet {A : Type} (c : M A) : Prop :=
  forall st r st',
    c st = (r, st') ->
    self st' = self st
    /\ report_outputs (trace st') = report_outputs (trace st).

(** A decimal digit. *)
Definition is_digit (c : char) : Prop := (48 <= c <= 57)%N.

(** [p] occurs in [s]. *)
Definition occurs_in (p s : str) : Prop := exists a b, s = a ++ p ++ b.

(** ** Sample inputs *)

Definition text_of_lines (ls : list string) : str := join [NL] (map lit ls).

(** A diff of one file with two hunks, and one with one hunk. *)
Definition diff_two_hunks : str :=
  text_of_lines ["diff --git a/a.py b/a.py"; "--- a/a.py"; "+++ b/a.py";
                 "@@ -1,2 +1,3 @@ def f():"; " a"; "+b";
                 "@@ -9 +9 @@"; "-c"; "+d"]%string.

Definition diff_one_hunk : str :=
  text_of_lines ["--- a/a.py"; "+++ b/a.py"; "@@ -1 +1 @@"; "-a"; "+b"]%string.

(** Texts in which the pattern matches over a line break. *)
Definition text_match_over_lines : str :=
  text_of_lines ["@@ a @@"; "@@"; EmptyString; "@@"]%string.


(** A successful reply of the endpoint with the message [text]. *)
Definition reply_content (text : str) : http_result :=
  JsonBody
    (JDict [(lit "choices",
             JList [JDict [(lit "message",
                            JDict [(lit "content", JStr text)])]])]).

(** A repository in which [git diff --name-only] prints [name_only] and
    every file has the diff [diff]. *)
Definition sample_shell (name_only diff : str)
  : list event -> str -> shell_result :=
  fun _ cmd =>
    if startswith (lit "git merge-base ") cmd then Output (lit "abc123" ++ [NL])
    else if startswith (lit "git diff --name-only ") cmd then Output name_only
    else Output diff.

(** An endpoint that finds the first hunk of [diff_two_hunks] good and
    comments on the second. *)
Definition endpoint_flags_second_hunk
  : list event -> str -> str -> bool -> http_result :=
  fun _ _ content _ =>
    if str_in (lit "@@ -9 +9 @@") content
    then reply_content (lit "- missing null check")
    else reply_content LGTM.

(** An endpoint configured at a URL whose path contains the token and that
    answers every request with status 404; the text is that of the
    [requests.HTTPError] which [raise_for_status] raises. *)
Definition endpoint_not_found
  : list event -> str -> str -> bool -> http_result :=
  fun _ _ _ _ =>
    StatusRaises
      (lit "404 Client Error: Not Found for url: http://localhost:11434/LGTM/v1/chat/completions").

Definition endpoint_lgtm : list event -> str -> str -> bool -> http_result :=
  fun _ _ _ _ => reply_content LGTM.

(** What a run on the branches [main] and [feature] with the one changed
    file [a.py] does before it looks at the diff of the file. *)
Definition trace_to_diff : list event :=
  [ConsolePrint (lit "[bold blue]Starting Review:[/bold blue] main <- feature");
   ShellCommand (lit "git merge-base origin/main feature");
   ShellCommand (lit "git diff --name-only abc123 feature");
   ProgressAddTask (lit "[green]Analyzing files...") 1;
   ProgressUpdate (lit "Reviewing a.py...");
   ShellCommand (lit "git diff abc123 feature -- a.py")].

(** An endpoint that comments on every diff, and the end of a run with the
    one changed file [a.py] and the diff [diff_one_hunk] against it. *)
Definition endpoint_comment : list event -> str -> str -> bool -> http_result :=
  fun _ _ _ _ => reply_content (lit "- missing null check").

Definition state_after_flagged_run : state :=
  {| self :=
       {| target_branch := lit "main";
          source_branch := lit "feature";
          report_lines := [text_of_lines ["## `a.py`"; "- missing null check"; EmptyString]%string] |};
     trace :=
       trace_to_diff ++
       [HttpPost (lit "a.py") diff_one_hunk false;
        ConsolePrint (lit "[bold red]Issues in a.py[/bold red]");
        ProgressAdvance;
        WriteFile (lit "PR_REVIEW.md")
          (text_of_lines ["# AI Code Review: feature"; EmptyString; "## `a.py`";
                          "- missing null check"; EmptyString]%string);
        saved_notice] |}.

(** ** The entry point *)



(** ** Vocabulary of the further properties *)

(** The line [run_command] prints for a command that fails. *)
Definition git_error_notice (msg : str) : event :=
  ConsolePrint (lit "[bold red]Git Error:[/bold red] " ++ msg).

(** A text without whitespace at either end. *)
Definition is_stripped (s : str) : bool :=
  match s with
  | [] => true
  | c :: _ => negb (is_space c) && negb (is_space (last s c))
  end.

(** The requests among the events of a run. *)
Definition is_request (e : event) : bool :=
  match e with
  | HttpPost _ _ _ => true
  | _ => false
  end.

Definition requests (events : list event) : list event :=
  filter is_request events.

(** An event that is no request, or a request over a whole diff of at most
    [limit] characters. *)
Definition whole_within (limit : Z) (e : event) : bool :=
  match e with
  | HttpPost _ content is_partial =>
      negb is_partial && (Z.of_nat (length content) <=? limit)%Z
  | _ => true
  end.

(** The names [get_changed_files] keeps of a listing (line 38). *)
Definition kept_name (f : str) : bool :=
  negb (length f =? 0)
  && negb (existsb (fun suffix => endswith suffix f) excluded_suffixes).

(** The commands of lines 37, 42 and 107. *)
Definition name_only_command (merge_base source_branch : str) : str :=
  lit "git diff --name-only " ++ merge_base ++ lit " " ++ source_branch.

Definition diff_command (merge_base source_branch file_name : str) : str :=
  lit "git diff " ++ merge_base ++ lit " " ++ source_branch ++ lit " -- "
  ++ file_name.

Definition merge_base_command (target_branch source_branch : str) : str :=
  lit "git merge-base origin/" ++ target_branch ++ lit " " ++ source_branch.

(** What the loop over the files does for a file with the diff [raw_diff]
    that is reviewed in one request with the outcome [review]. *)
Definition file_events (merge_base source_branch : str)
    (reviewed : str * (str * str)) : list event :=
  let file_name := fst reviewed in
  let raw_diff := fst (snd reviewed) in
  let review := snd (snd reviewed) in
  [ProgressUpdate (lit "Reviewing " ++ file_name ++ lit "...");
   ShellCommand (diff_command merge_base source_branch file_name);
   HttpPost file_name raw_diff false;
   ConsolePrint (match verdict_of review with
                 | CLEAN => lit "[bold green]LGTM for " ++ file_name
                            ++ lit "[/bold green]"
                 | FLAGGED _ => lit "[bold red]Issues in " ++ file_name
                                ++ lit "[/bold red]"
                 end);
   ProgressAdvance].

(** What [save_report] does for the reviewer [me]. *)
Definition save_events (me : AIReviewer) : list event :=
  match report_lines me with
  | [] => [no_issues_notice]
  | _ :: _ => [report_file me; saved_notice]
  end.

(** The changed files of a run: the names kept of what the listing command
    printed. *)
Definition listed_files (shell : list event -> str -> shell_result)
    (merge_base source_branch : str) (files : list str) : Prop :=
  exists events stdout,
    shell events (name_only_command merge_base source_branch) = Output stdout
    /\ files = filter kept_name (lines (strip stdout)).

(** The diff of a file that is reviewed whole: what the diff command of the
    file printed, stripped, of at most [limit] characters. *)
Definition reviewed_diff (limit : Z) (shell : list event -> str -> shell_result)
    (merge_base source_branch file_name raw_diff : str) : Prop :=
  (Z.of_nat (length raw_diff) <= limit)%Z
  /\ exists events stdout,
       shell events (diff_command merge_base source_branch file_name)
       = Output stdout
       /\ raw_diff = strip stdout.

(** How a run may stop without returning: with exit status 1, right after
    the Git Error line, or on the name that line 133 reads.  [events] are
    the events of the run. *)
Definition stops_as_known (e : exn) (events : list event) : Prop :=
  match e with
  | SystemExit code =>
      code = 1%Z
      /\ exists before msg, events = before ++ [git_error_notice msg]
  | NameError name => name = "filename"%string
  | UnboundLocalError _ => False
  end.

(** A statement that adds events to the trace, none of them an output of
    the report and each request among them over a whole diff within
    [limit], and that stops only in a known way. *)
Definition calm (limit : Z) {A : Type} (c : M A) : Prop :=
  forall st r st',
    c st = (r, st') ->
    exists events,
      trace st' = trace st ++ events
      /\ forallb (whole_within limit) events = true
      /\ report_outputs events = []
      /\ match r with
         | Ok _ => True
         | Raise e => stops_as_known e events
         end.

(** The same, for a statement that may put out the report when it
    returns. *)
Definition ends_well (limit : Z) {A : Type} (c : M A) : Prop :=
  forall st r st',
    c st = (r, st') ->
    exists events,
      trace st' = trace st ++ events
      /\ forallb (whole_within limit) events = true
      /\ match r with
         | Ok _ => True
         | Raise e => stops_as_known e events /\ report_outputs events = []
         end.

(** ** Further sample inputs *)

(** A reply with choices and a [response], as the items of its object. *)
Definition chat_content : list (str * json) :=
  [(lit "content", JStr (lit " - unused import " ++ [NL]))].

Definition chat_choice : list (str * json) :=
  [(lit "message", JDict chat_content)].

Definition reply_items_both : list (str * json) :=
  [(lit "response", JStr LGTM);
   (lit "choices", JList [JDict chat_choice; JNull])].



(** * Properties *)

(** ** Strings *)

Section StringFacts.

Lemma startswith_spec p s :
  startswith p s = true <-> exists r, s = p ++ r.
Proof.
  revert s; induction p as [|a p IH]; intros s; cbn [startswith].
  - split; [exists s; reflexivity | reflexivity].
  - destruct s as [|b s].
    + split; [discriminate | intros [r H]; discriminate].
    + rewrite andb_true_iff, N.eqb_eq, IH. split.
      * intros [-> [r ->]]. exists r. reflexivity.
      * intros [r H]. inversion H; subst. split; [reflexivity | now exists r].
Qed.

Lemma str_in_spec p s : str_in p s = true <-> occurs_in p s.
Proof.
  unfold occurs_in. induction s as [|c s IH]; cbn [str_in].
  - rewrite orb_false_r, startswith_spec. split.
    + intros [r H]. exists [], r. exact H.
    + intros [a [b H]]. destruct a; [now exists b|discriminate].
  - rewrite orb_true_iff, startswith_spec, IH. split.
    + intros [[r H] | [a [b H]]].
      * exists [], r. exact H.
      * exists (c :: a), b. rewrite H. reflexivity.
    + intros [[|x a] [b H]].
      * left. exists b. exact H.
      * right. inversion H; subst. exists a, b. reflexivity.
Qed.

(** A character that is not in [p] cuts every occurrence of [p]. *)
Lemma startswith_cut p a c b :
  ~ In c p -> startswith p (a ++ c :: b) = startswith p a.
Proof.
  revert a; induction p as [|x p IH]; intros a Hc; cbn [startswith].
  - destruct a; reflexivity.
  - destruct a as [|y a]; cbn [app startswith].
    + destruct (N.eqb_spec x c) as [->|]; [|reflexivity].
      exfalso. apply Hc. left. reflexivity.
    + rewrite IH; [reflexivity|]. intros H. apply Hc. right. exact H.
Qed.

Lemma str_in_cut p a c b :
  ~ In c p -> str_in p (a ++ c :: b) = str_in p a || str_in p b.
Proof.
  intros Hc. induction a as [|y a IH].
  - cbn [app]. change (str_in p (c :: b))
      with (startswith p (c :: b) || str_in p b).
    change (str_in p []) with (startswith p [] || false).
    pose proof (startswith_cut p [] c b Hc) as E. cbn [app] in E.
    rewrite E, orb_false_r. reflexivity.
  - pose proof (startswith_cut p (y :: a) c b Hc) as E. cbn [app] in E.
    cbn [app str_in]. rewrite IH, E, orb_assoc. reflexivity.
Qed.

(** A text without the first character of [p] does not contain [p]. *)
Lemma str_in_without_head x p s :
  ~ In x s -> str_in (x :: p) s = false.
Proof.
  induction s as [|c s IH]; intros H; cbn [str_in startswith]; [reflexivity|].
  rewrite IH by (intros H'; apply H; right; exact H').
  destruct (N.eqb_spec x c) as [->|]; [|reflexivity].
  exfalso. apply H. left. reflexivity.
Qed.

Lemma join_cons sep x y rest :
  join sep (x :: y :: rest) = x ++ sep ++ join sep (y :: rest).
Proof. reflexivity. Qed.

Lemma string_of_uint_digits u :
  Forall is_digit (lit (NilEmpty.string_of_uint u)).
Proof.
  unfold lit. induction u; cbn; constructor; try assumption;
    unfold is_digit; cbn; lia.
Qed.

Lemma str_of_nat_digits n : Forall is_digit (str_of_nat n).
Proof. apply string_of_uint_digits. Qed.

End StringFacts.

(** ** Merging the comments of the hunks *)

Section Merge.

Lemma NL_not_in_LGTM : ~ In NL LGTM.
Proof. cbv. intuition discriminate. Qed.

Lemma hunk_label_without_L i :
  ~ In 76%N (lit "**Hunk " ++ str_of_nat (i + 1) ++ lit ":**").
Proof.
  rewrite !in_app_iff. intros [H | [H | H]].
  - cbv in H. intuition discriminate.
  - pose proof (str_of_nat_digits (i + 1)) as D.
    rewrite Forall_forall in D. apply D in H. unfold is_digit in H. lia.
  - cbv in H. intuition discriminate.
Qed.

(** The label of line 136 adds no occurrence of the token. *)
Lemma str_in_hunk_comment i review :
  str_in LGTM (hunk_comment i review) = str_in LGTM review.
Proof.
  unfold hunk_comment.
  replace (lit "**Hunk " ++ str_of_nat (i + 1) ++ lit ":**" ++ [NL] ++ review)
    with ((lit "**Hunk " ++ str_of_nat (i + 1) ++ lit ":**") ++ NL :: review)
    by (rewrite <- !app_assoc; reflexivity).
  rewrite (str_in_cut _ _ _ _ NL_not_in_LGTM).
  change LGTM with (76%N :: lit "GTM") at 1.
  rewrite (str_in_without_head _ _ _ (hunk_label_without_L i)). reflexivity.
Qed.

(** Neither does the blank line of line 138. *)
Lemma str_in_join_blank l :
  Forall (fun e => str_in LGTM e = false) l ->
  l <> [] -> str_in LGTM (join [NL; NL] l) = false.
Proof.
  induction l as [|x l IH]; intros HF Hne; [contradiction|].
  inversion HF as [|? ? Hx Hl]; subst.
  destruct l as [|y l]; [exact Hx|].
  rewrite join_cons. cbn [app].
  rewrite (str_in_cut _ _ _ _ NL_not_in_LGTM), Hx. cbn [orb].
  pose proof (str_in_cut LGTM [] NL (join [NL; NL] (y :: l)) NL_not_in_LGTM) as E.
  cbn [app] in E. rewrite E.
  rewrite IH by (assumption || discriminate).
  reflexivity.
Qed.

Lemma collect_all_flagged reviews : forall i file_comments,
  collect_all i reviews file_comments
  = file_comments ++ flagged_comments i reviews.
Proof.
  induction reviews as [|r reviews IH]; intros i fc; cbn [collect_all flagged_comments].
  - rewrite app_nil_r. reflexivity.
  - rewrite IH. unfold collect. destruct (str_in LGTM r); cbn [negb app].
    + reflexivity.
    + rewrite <- app_assoc. reflexivity.
Qed.

Lemma flagged_comments_without_token reviews : forall i,
  Forall (fun e => str_in LGTM e = false) (flagged_comments i reviews).
Proof.
  induction reviews as [|r reviews IH]; intros i; cbn [flagged_comments].
  - constructor.
  - apply Forall_app. split; [|apply IH].
    destruct (str_in LGTM r) eqn:E; constructor; [|constructor].
    rewrite str_in_hunk_comment. exact E.
Qed.

Lemma flagged_comments_nil reviews : forall i,
  flagged_comments i reviews = [] <->
  Forall (fun r => str_in LGTM r = true) reviews.
Proof.
  induction reviews as [|r reviews IH]; intros i; cbn [flagged_comments].
  - split; [constructor | reflexivity].
  - destruct (str_in LGTM r) eqn:E; cbn [app].
    + rewrite IH. split; [now constructor | intros H; now inversion H].
    + split; [discriminate|]. intros H. inversion H; subst. congruence.
Qed.

(** The text of line 138 contains the token exactly when the list of
    comments is empty, provided no comment contains it. *)
Lemma str_in_merge_comments file_comments :
  Forall (fun e => str_in LGTM e = false) file_comments ->
  str_in LGTM (merge_comments file_comments)
  = match file_comments with [] => true | _ :: _ => false end.
Proof.
  intros HF. destruct file_comments as [|x l]; [reflexivity|].
  unfold merge_comments. apply str_in_join_blank; [exact HF | discriminate].
Qed.

End Merge.

(** ** The splitter *)

Section Splitter.

Lemma match_lazy_app s m rest :
  match_lazy s = Some (m, rest) -> s = m ++ rest.
Proof.
  revert m rest; induction s as [|c s IH]; intros m rest; cbn [match_lazy];
    [discriminate|].
  destruct (is_space c && startswith [AT; AT] s) eqn:E.
  - intros H; inversion H; subst; clear H.
    apply andb_true_iff in E as [_ E].
    apply startswith_spec in E as [r ->]. reflexivity.
  - destruct (c =? NL)%N; [discriminate|].
    destruct (match_lazy s) as [[m' r']|]; [|discriminate].
    intros H; inversion H; subst; clear H.
    cbn [app]. f_equal. now apply IH.
Qed.

Lemma match_header_app s m rest :
  match_header s = Some (m, rest) -> s = m ++ rest.
Proof.
  destruct s as [|a [|b [|c s]]]; cbn [match_header]; try discriminate.
  destruct ((a =? AT)%N && (b =? AT)%N && is_space c); [|discriminate].
  destruct (match_lazy s) as [[m' r']|] eqn:E; [|discriminate].
  intros H; inversion H; subst; clear H.
  cbn [app]. do 3 f_equal. now apply match_lazy_app.
Qed.

(** [re.split] cuts the text and keeps every piece. *)
Lemma re_split_from_concat bol seg s :
  concat (re_split_from bol seg s) = rev seg ++ s.
Proof.
  funelim (re_split_from bol seg s); simp re_split_from;
    try (rewrite <- Heqcall; clear Heqcall).
  - cbn. rewrite !app_nil_r. reflexivity.
  - rewrite H. cbn [rev]. rewrite <- app_assoc. reflexivity.
  - cbn [concat]. rewrite H. cbn [rev app].
    rewrite (match_header_app _ _ _ e). reflexivity.
  - rewrite H. cbn [rev]. rewrite <- app_assoc. reflexivity.
Qed.

Lemma re_split_from_nonempty bol seg s : re_split_from bol seg s <> [].
Proof.
  funelim (re_split_from bol seg s); simp re_split_from;
    try (rewrite <- Heqcall; clear Heqcall); try discriminate; assumption.
Qed.

Lemma re_split_parts text :
  re_split text = leading_segment text :: tl (re_split text).
Proof.
  unfold leading_segment.
  pose proof (re_split_from_nonempty true [] text) as H.
  unfold re_split. destruct (re_split_from true [] text); [contradiction|].
  reflexivity.
Qed.

(** Induction over a list taken two elements at a time. *)
Lemma list_pairs_ind (A : Type) (P : list A -> Prop) :
  P [] -> (forall h, P [h]) ->
  (forall h c rest, P rest -> P (h :: c :: rest)) ->
  forall l, P l.
Proof.
  intros H0 H1 H2.
  assert (forall l, P l /\ forall x, P (x :: l)) as H.
  { induction l as [|y l [IHa IHb]].
    - split; [exact H0 | exact H1].
    - split; [apply IHb|]. intros x. apply H2. exact IHa. }
  intros l. apply H.
Qed.

Lemma concat_blocks_of rest : concat (blocks_of rest) = concat rest.
Proof.
  induction rest as [|h|h c rest IH] using list_pairs_ind;
    cbn [blocks_of concat].
  - reflexivity.
  - reflexivity.
  - rewrite IH. rewrite <- app_assoc. reflexivity.
Qed.

Lemma assemble_blocks file_header rest :
  assemble file_header rest
  = map (fun block => file_header ++ [NL] ++ block) (blocks_of rest).
Proof.
  induction rest as [|h|h c rest IH] using list_pairs_ind;
    cbn [assemble blocks_of map].
  - reflexivity.
  - rewrite app_nil_r. reflexivity.
  - rewrite IH. reflexivity.
Qed.

Lemma length_blocks_of rest : length (blocks_of rest) = length (matches_of rest).
Proof.
  induction rest as [|h|h c rest IH] using list_pairs_ind;
    cbn [blocks_of matches_of length].
  - reflexivity.
  - reflexivity.
  - rewrite IH. reflexivity.
Qed.

Lemma change_block_unit file_header block :
  change_block file_header (file_header ++ [NL] ++ block) = block.
Proof.
  unfold change_block.
  replace (file_header ++ [NL] ++ block) with ((file_header ++ [NL]) ++ block)
    by (rewrite <- app_assoc; reflexivity).
  replace (length file_header + 1) with (length (file_header ++ [NL]))
    by (rewrite length_app; reflexivity).
  rewrite skipn_app, skipn_all, Nat.sub_diag. reflexivity.
Qed.

(** The two branches of [split_into_hunks]. *)
Lemma split_into_hunks_parts text :
  split_into_hunks text
  = match tl (re_split text) with
    | [] => [text]
    | _ :: _ => map (fun block => leading_segment text ++ [NL] ++ block)
                    (change_blocks text)
    end.
Proof.
  unfold split_into_hunks, change_blocks, leading_segment.
  destruct (re_split text) as [|file_header rest] eqn:E.
  - exfalso. exact (re_split_from_nonempty true [] text E).
  - cbn [hd tl]. destruct rest as [|h rest]; [reflexivity|].
    change (1 <? length (file_header :: h :: rest)) with true.
    cbv iota. apply assemble_blocks.
Qed.

Lemma text_parts text :
  text = leading_segment text ++ concat (change_blocks text).
Proof.
  unfold change_blocks. rewrite concat_blocks_of.
  pose proof (re_split_from_concat true [] text) as H.
  fold (re_split text) in H. rewrite (re_split_parts text) in H.
  cbn [concat rev app] in H. symmetry. exact H.
Qed.

Lemma matches_of_nil rest : matches_of rest = [] <-> rest = [].
Proof.
  destruct rest as [|h [|c rest]]; cbn [matches_of]; split;
    (reflexivity || discriminate).
Qed.

(** *** Matches and lines *)

Lemma lines_nonempty text : lines text <> [].
Proof.
  unfold lines. destruct text as [|c text]; cbn [split_on]; [discriminate|].
  destruct (c =? NL)%N; [discriminate|].
  destruct (split_on NL text); discriminate.
Qed.

Lemma lines_parts text : lines text = hd [] (lines text) :: tl (lines text).
Proof.
  pose proof (lines_nonempty text). destruct (lines text); [contradiction|].
  reflexivity.
Qed.

Lemma lines_newline text : lines (NL :: text) = [] :: lines text.
Proof. reflexivity. Qed.

Lemma lines_cons c text :
  c <> NL -> lines (c :: text) = (c :: hd [] (lines text)) :: tl (lines text).
Proof.
  intros Hc. unfold lines at 1. cbn [split_on].
  destruct (N.eqb_spec c NL) as [->|_]; [contradiction|].
  fold (lines text). rewrite (lines_parts text) at 1. reflexivity.
Qed.

Lemma single_line_cons c m :
  single_line (c :: m) = negb (NL =? c)%N && single_line m.
Proof. unfold single_line. cbn [existsb]. rewrite negb_orb. reflexivity. Qed.

(** A text that stays on one line extends the first line of what follows. *)
Lemma lines_app m text :
  single_line m = true ->
  lines (m ++ text) = (m ++ hd [] (lines text)) :: tl (lines text).
Proof.
  induction m as [|c m IH]; intros Hm; cbn [app].
  - apply lines_parts.
  - rewrite single_line_cons in Hm. apply andb_true_iff in Hm as [Hc Hm].
    assert (c <> NL) as Hc'.
    { intros ->. rewrite N.eqb_refl in Hc. discriminate. }
    rewrite (lines_cons _ _ Hc'), (IH Hm). reflexivity.
Qed.

(** ["\n".join(text.split("\n")) == text] *)
Lemma join_lines text : join [NL] (lines text) = text.
Proof.
  induction text as [|c text IH].
  - reflexivity.
  - pose proof (lines_nonempty text) as Hne.
    destruct (N.eqb_spec c NL) as [->|Hc].
    + rewrite lines_newline.
      destruct (lines text) as [|l ls]; [contradiction|].
      rewrite join_cons, IH. reflexivity.
    + rewrite (lines_cons _ _ Hc).
      destruct (lines text) as [|l [|l' ls]]; [contradiction| |]; cbn [hd tl].
      * cbn [join] in *. rewrite IH. reflexivity.
      * rewrite join_cons in *. cbn [app] in *. rewrite IH. reflexivity.
Qed.

(** A text starts with its first line. *)
Lemma first_line_prefix text :
  exists rest, text = hd [] (lines text) ++ rest.
Proof.
  pose proof (join_lines text) as H. pose proof (lines_nonempty text) as Hne.
  destruct (lines text) as [|l [|l' ls]]; [contradiction| |]; cbn [hd].
  - exists []. cbn [join] in H. rewrite app_nil_r. symmetry. exact H.
  - rewrite join_cons in H. eexists. symmetry. exact H.
Qed.

Lemma match_lazy_length s m rest :
  match_lazy s = Some (m, rest) -> 3 <= length m.
Proof.
  revert m rest; induction s as [|c s IH]; intros m rest; cbn [match_lazy];
    [discriminate|].
  destruct (is_space c && startswith [AT; AT] s).
  - intros H; inversion H; subst. cbn. lia.
  - destruct (c =? NL)%N; [discriminate|].
    destruct (match_lazy s) as [[m' r']|] eqn:E; [|discriminate].
    intros H; inversion H; subst. specialize (IH _ _ eq_refl). cbn. lia.
Qed.

Lemma startswith_two_app a b m x y :
  2 <= length m ->
  startswith [a; b] (m ++ x) = startswith [a; b] (m ++ y).
Proof.
  destruct m as [|c [|d m]]; cbn [length]; intros H; try lia.
  cbn [app startswith]. reflexivity.
Qed.

(** A match does not depend on the text after it. *)
Lemma match_lazy_extend s m rest :
  match_lazy s = Some (m, rest) ->
  forall x, match_lazy (m ++ x) = Some (m, x).
Proof.
  revert m rest; induction s as [|c s IH]; intros m rest; cbn [match_lazy];
    [discriminate|].
  destruct (is_space c && startswith [AT; AT] s) eqn:E.
  - intros H; inversion H; subst; clear H. intros x.
    apply andb_true_iff in E as [Ec _].
    cbn [app match_lazy]. rewrite Ec.
    change (startswith [AT; AT] (AT :: AT :: x)) with true.
    reflexivity.
  - destruct (c =? NL)%N eqn:Ec; [discriminate|].
    destruct (match_lazy s) as [[m' r']|] eqn:El; [|discriminate].
    intros H; inversion H; subst; clear H. intros x.
    cbn [app match_lazy].
    pose proof (match_lazy_length _ _ _ El) as Hlen.
    pose proof (match_lazy_app _ _ _ El) as ->.
    rewrite (startswith_two_app AT AT m' x rest) by lia.
    rewrite E, Ec, (IH _ _ eq_refl x). reflexivity.
Qed.

Lemma match_header_extend s m rest :
  match_header s = Some (m, rest) ->
  forall x, match_header (m ++ x) = Some (m, x).
Proof.
  destruct s as [|a [|b [|c s]]]; cbn [match_header]; try discriminate.
  destruct ((a =? AT)%N && (b =? AT)%N && is_space c) eqn:E; [|discriminate].
  destruct (match_lazy s) as [[m' r']|] eqn:El; [|discriminate].
  intros H; inversion H; subst; clear H. intros x.
  cbn [app match_header]. rewrite E, (match_lazy_extend _ _ _ El x). reflexivity.
Qed.

(** A line that matches by itself matches whatever follows it. *)
Lemma header_line_matches line text :
  is_hunk_header_line line = true ->
  exists m rest, match_header (line ++ text) = Some (m, rest).
Proof.
  unfold is_hunk_header_line.
  destruct (match_header line) as [[m r]|] eqn:E; [|discriminate].
  intros _. pose proof (match_header_app _ _ _ E) as ->.
  rewrite <- app_assoc. eexists _, _. apply (match_header_extend _ _ _ E).
Qed.

(** Every header that [re.split] returns is a match of the pattern. *)
Lemma re_split_from_matches bol seg s :
  Forall (fun m => forall x, match_header (m ++ x) = Some (m, x))
    (matches_of (tl (re_split_from bol seg s))).
Proof.
  funelim (re_split_from bol seg s); simp re_split_from;
    try (rewrite <- Heqcall; clear Heqcall); try assumption;
    try (constructor; fail).
  pose proof (re_split_from_nonempty false [] rest) as Hne.
  destruct (re_split_from false [] rest) as [|x0 X]; [contradiction|].
  cbn [tl matches_of] in *. constructor; [|assumption].
  apply (match_header_extend _ _ _ e).
Qed.

Lemma empty_line_no_header : is_hunk_header_line [] = false.
Proof. reflexivity. Qed.

(** Under [^] at [bol], the scan meets the lines [scanned_lines bol s]. *)
Lemma re_split_from_lines bol seg s :
  forallb single_line (matches_of (tl (re_split_from bol seg s))) = true ->
  length (matches_of (tl (re_split_from bol seg s)))
  = length (filter is_hunk_header_line
              (if bol then lines s else tl (lines s)))
  /\ concat (tl (re_split_from bol seg s))
     = join [NL] (from_first_header_line
                    (if bol then lines s else tl (lines s))).
Proof.
  funelim (re_split_from bol seg s); simp re_split_from;
    try (rewrite <- Heqcall; clear Heqcall).
  - intros _. destruct bol; split; reflexivity.
  - intros Hs. specialize (H Hs).
    destruct (N.eqb_spec c NL) as [->|Hc].
    + rewrite lines_newline. exact H.
    + rewrite (lines_cons _ _ Hc). exact H.
  - intros Hs.
    pose proof (re_split_from_nonempty false [] rest) as Hne.
    pose proof (re_split_from_concat false [] rest) as Hcat.
    destruct (re_split_from false [] rest) as [|x0 X] eqn:EX; [contradiction|].
    cbn [tl matches_of forallb] in Hs |- *.
    apply andb_true_iff in Hs as [Hm Hs].
    cbn [tl] in H. specialize (H Hs). destruct H as [Hlen Hjoin].
    pose proof (match_header_app _ _ _ e) as Es. rewrite Es.
    rewrite (lines_app _ _ Hm).
    assert (is_hunk_header_line (m ++ hd [] (lines rest)) = true) as Hh.
    { unfold is_hunk_header_line.
      rewrite (match_header_extend _ _ _ e). reflexivity. }
    cbn [filter from_first_header_line]. rewrite Hh. split.
    + cbn [length]. rewrite Hlen. reflexivity.
    + rewrite <- (lines_app _ _ Hm), join_lines.
      cbn [concat]. cbn [concat rev app] in Hcat. rewrite Hcat. reflexivity.
  - intros Hs. specialize (H Hs).
    destruct (N.eqb_spec c NL) as [->|Hc].
    + rewrite lines_newline. cbn [filter from_first_header_line].
      rewrite empty_line_no_header. exact H.
    + rewrite (lines_cons _ _ Hc). cbn [filter from_first_header_line].
      destruct (is_hunk_header_line (c :: hd [] (lines s'))) eqn:Eh;
        [|exact H].
      exfalso. destruct (first_line_prefix s') as [y Hy].
      destruct (header_line_matches _ y Eh) as [m' [r' Hm']].
      cbn [app] in Hm'. rewrite <- Hy in Hm'. congruence.
Qed.

End Splitter.

(** ** The review of one file *)

Section FileReview.

Variable CHUNK_LIMIT : Z.
Variable endpoint : list event -> str -> str -> bool -> http_result.

Lemma split_into_hunks_nonempty text : split_into_hunks text <> [].
Proof.
  rewrite split_into_hunks_parts.
  destruct (tl (re_split text)) as [|h rest] eqn:E; [discriminate|].
  unfold change_blocks. rewrite E.
  destruct rest as [|c rest]; cbn [blocks_of map]; discriminate.
Qed.

(** The description of line 133 reads a name that is bound nowhere. *)
Lemma hunk_description_raises merge_base file_name raw_diff hunk i n st :
  hunk_description (hunk_loop_scope merge_base file_name raw_diff hunk) i n st
  = (Raise (NameError "filename"), st).
Proof. reflexivity. Qed.

(** So the loop stops in its first round, before any request. *)
Lemma review_hunks_raises merge_base file_name raw_diff n hunks i
    file_comments final_review st :
  hunks <> [] ->
  review_hunks endpoint merge_base file_name raw_diff n hunks i file_comments
    final_review st
  = (Raise (NameError "filename"), st).
Proof.
  destruct hunks as [|hunk rest]; [contradiction|]. intros _. reflexivity.
Qed.

Lemma review_diff_over_limit merge_base file_name raw_diff final_review st :
  (CHUNK_LIMIT < Z.of_nat (length raw_diff))%Z ->
  review_diff CHUNK_LIMIT endpoint merge_base file_name raw_diff final_review st
  = (Raise (NameError "filename"), st).
Proof.
  intros H. unfold review_diff.
  apply Z.ltb_lt in H. rewrite H.
  apply review_hunks_raises. apply split_into_hunks_nonempty.
Qed.

Lemma review_diff_within_limit merge_base file_name raw_diff final_review st :
  (Z.of_nat (length raw_diff) <= CHUNK_LIMIT)%Z ->
  review_diff CHUNK_LIMIT endpoint merge_base file_name raw_diff final_review st
  = (Ok (Some (review_of (endpoint (trace st) file_name raw_diff false))),
     log (HttpPost file_name raw_diff false) st).
Proof.
  intros H. unfold review_diff.
  apply Z.ltb_ge in H. rewrite H. reflexivity.
Qed.

(** Lines 134-138 make one request, over the hunk, marked partial. *)
Lemma review_hunk_run file_name i hunk file_comments st :
  review_hunk endpoint file_name i hunk file_comments st
  = (Ok (collect i (review_of (endpoint (trace st) file_name hunk true))
           file_comments,
         merge_comments
           (collect i (review_of (endpoint (trace st) file_name hunk true))
              file_comments)),
     log (HttpPost file_name hunk true) st).
Proof. reflexivity. Qed.

Lemma verdict_clean review :
  verdict_of review = CLEAN <-> str_in LGTM review = true.
Proof.
  unfold verdict_of. destruct (str_in LGTM review); split;
    (reflexivity || discriminate).
Qed.

Lemma collect_verdict i review file_comments :
  collect i review file_comments
  = file_comments ++ match verdict_of review with
                     | CLEAN => []
                     | FLAGGED text => [hunk_comment i text]
                     end.
Proof.
  unfold collect, verdict_of. destruct (str_in LGTM review); cbn [negb].
  - rewrite app_nil_r. reflexivity.
  - reflexivity.
Qed.

(** The entry of a file in the report, if its final review is flagged. *)
Lemma store_result_run file_name final_review st :
  store_result file_name (Some final_review) st
  = (Ok tt,
     match verdict_of final_review with
     | CLEAN =>
         log (ConsolePrint (lit "[bold green]LGTM for " ++ file_name
                            ++ lit "[/bold green]")) st
     | FLAGGED text =>
         log (ConsolePrint (lit "[bold red]Issues in " ++ file_name
                            ++ lit "[/bold red]"))
           {| self := {| target_branch := target_branch (self st);
                         source_branch := source_branch (self st);
                         report_lines := report_lines (self st)
                                         ++ [report_line file_name text] |};
              trace := trace st |}
     end).
Proof.
  unfold store_result, verdict_of.
  destruct (str_in LGTM final_review); reflexivity.
Qed.

End FileReview.

(** ** Losslessness of the splitter *)

Section Lossless.

Lemma blocks_start_with_headers rest :
  Forall2 (fun header block => exists code, block = header ++ code)
    (matches_of rest) (blocks_of rest).
Proof.
  induction rest as [|h|h c rest IH] using list_pairs_ind;
    cbn [matches_of blocks_of]; constructor; try constructor.
  - exists []. rewrite app_nil_r. reflexivity.
  - exists c. reflexivity.
  - exact IH.
Qed.

(** The units, counted and taken apart by the matches of the pattern. *)
Lemma split_into_hunks_by_matches text :
  header_matches text <> [] ->
  length (split_into_hunks text) = length (header_matches text)
  /\ split_into_hunks text
     = map (fun block => leading_segment text ++ [NL] ++ block)
         (change_blocks text)
  /\ map (change_block (leading_segment text)) (split_into_hunks text)
     = change_blocks text
  /\ text = leading_segment text ++ concat (change_blocks text).
Proof.
  intros Hne. unfold header_matches in *.
  pose proof (split_into_hunks_parts text) as Hs.
  destruct (tl (re_split text)) as [|h rest] eqn:E.
  { exfalso. apply Hne. reflexivity. }
  rewrite Hs. repeat split.
  - unfold change_blocks. rewrite length_map, E. apply length_blocks_of.
  - rewrite map_map. erewrite map_ext; [apply map_id|].
    intros block. apply change_block_unit.
  - apply text_parts.
Qed.

Lemma header_matches_lines text :
  forallb single_line (header_matches text) = true ->
  length (header_matches text) = count_hunk_header_lines text
  /\ concat (change_blocks text) = text_from_first_header text.
Proof.
  intros Hs. unfold header_matches, change_blocks, re_split in *.
  destruct (re_split_from_lines true [] text Hs) as [Hlen Hjoin].
  split; [exact Hlen|]. rewrite concat_blocks_of. exact Hjoin.
Qed.

Lemma header_matches_are_headers text :
  Forall (fun header => is_hunk_header_line header = true)
    (header_matches text).
Proof.
  unfold header_matches, re_split.
  apply (Forall_impl _ (P := fun m => forall x, match_header (m ++ x) = Some (m, x)));
    [|apply re_split_from_matches].
  intros m Hm. unfold is_hunk_header_line.
  specialize (Hm []). rewrite app_nil_r in Hm. rewrite Hm. reflexivity.
Qed.

(** C1 as stated fails: the text [text_match_over_lines] has one
    hunk-header line, its first, and the splitter makes two units of it,
    because the pattern matches a second time over the three lines that
    follow. *)
Lemma header_lines_miscount :
  count_hunk_header_lines text_match_over_lines = 1
  /\ split_into_hunks text_match_over_lines
     = [text_of_lines [EmptyString; "@@ a @@"; EmptyString]%string;
        text_of_lines [EmptyString; "@@"; EmptyString; "@@"]%string]
  /\ length (split_into_hunks text_match_over_lines)
     <> count_hunk_header_lines text_match_over_lines.
Proof.
  split; [|split].
  - vm_compute. reflexivity.
  - vm_compute. reflexivity.
  - vm_compute. discriminate.
Qed.

(** C1, amended: for a text in which no match of the pattern extends over a
    line break and which has N >= 1 hunk-header lines, [split_into_hunks]
    returns N units; each is the leading segment, a newline and a change
    block (a header that matches the pattern and the text up to the next
    one); the change blocks, in output order, concatenate to the text from
    its first hunk-header line to its end. *)
Theorem split_into_hunks_lossless text :
  forallb single_line (header_matches text) = true ->
  1 <= count_hunk_header_lines text ->
  length (split_into_hunks text) = count_hunk_header_lines text
  /\ split_into_hunks text
     = map (fun block => leading_segment text ++ [NL] ++ block)
         (change_blocks text)
  /\ Forall (fun header => is_hunk_header_line header = true)
       (header_matches text)
  /\ Forall2 (fun header block => exists code, block = header ++ code)
       (header_matches text) (change_blocks text)
  /\ concat (map (change_block (leading_segment text)) (split_into_hunks text))
     = text_from_first_header text
  /\ text = leading_segment text ++ text_from_first_header text.
Proof.
  intros Hs HN.
  destruct (header_matches_lines text Hs) as [Hlen Hcat].
  assert (header_matches text <> []) as Hne.
  { intros E. rewrite E in Hlen. cbn in Hlen. lia. }
  destruct (split_into_hunks_by_matches text Hne) as (Hl & Hu & Hb & Ht).
  repeat split.
  - rewrite Hl. exact Hlen.
  - exact Hu.
  - apply header_matches_are_headers.
  - apply blocks_start_with_headers.
  - rewrite Hb. exact Hcat.
  - rewrite <- Hcat. exact Ht.
Qed.

Lemma split_into_hunks_lossless_witness :
  forallb single_line (header_matches diff_two_hunks) = true
  /\ 1 <= count_hunk_header_lines diff_two_hunks
  /\ length (split_into_hunks diff_two_hunks) = 2
  /\ concat (map (change_block (leading_segment diff_two_hunks))
               (split_into_hunks diff_two_hunks))
     = text_of_lines ["@@ -1,2 +1,3 @@ def f():"; " a"; "+b";
                      "@@ -9 +9 @@"; "-c"; "+d"]%string.
Proof.
  assert (forallb single_line (header_matches diff_two_hunks) = true) as Hs
    by (vm_compute; reflexivity).
  assert (1 <= count_hunk_header_lines diff_two_hunks) as HN
    by (vm_compute; lia).
  destruct (split_into_hunks_lossless diff_two_hunks Hs HN)
    as (Hl & _ & _ & _ & Hc & _).
  split; [exact Hs|]. split; [exact HN|]. split.
  - rewrite Hl. vm_compute. reflexivity.
  - rewrite Hc. vm_compute. reflexivity.
Defined.

(** *** One hunk *)

Lemma matches_of_one rest header :
  matches_of rest = [header] ->
  exists code, blocks_of rest = [header ++ code].
Proof.
  destruct rest as [|h [|c rest]]; cbn [matches_of blocks_of]; intros H.
  - discriminate.
  - inversion H; subst. exists []. rewrite app_nil_r. reflexivity.
  - assert (h = header) as Hh by congruence.
    assert (matches_of rest = []) as Hr by congruence.
    apply (proj1 (matches_of_nil rest)) in Hr. subst. exists c. reflexivity.
Qed.

(** C9 as stated fails: the one unit made of [diff_one_hunk] has an empty
    line before the hunk header that the input does not have. *)
Lemma single_hunk_unit_differs :
  count_hunk_header_lines diff_one_hunk = 1
  /\ split_into_hunks diff_one_hunk
     = [text_of_lines ["--- a/a.py"; "+++ b/a.py"; EmptyString; "@@ -1 +1 @@";
                       "-a"; "+b"]%string]
  /\ split_into_hunks diff_one_hunk <> [diff_one_hunk].
Proof.
  split; [|split].
  - vm_compute. reflexivity.
  - vm_compute. reflexivity.
  - vm_compute. discriminate.
Qed.

(** C9, amended: for a text in which the pattern matches exactly once,
    [split_into_hunks] returns exactly one unit: the leading segment, one
    newline, the hunk header and its content, that is, the input with one
    newline inserted before the hunk header. *)
Theorem single_hunk_unit text header :
  header_matches text = [header] ->
  exists code,
    text = leading_segment text ++ header ++ code
    /\ split_into_hunks text
       = [leading_segment text ++ [NL] ++ header ++ code]
    /\ split_into_hunks text <> [text].
Proof.
  intros Hm.
  assert (header_matches text <> []) as Hne by (rewrite Hm; discriminate).
  destruct (split_into_hunks_by_matches text Hne) as (_ & Hu & _ & Ht).
  unfold header_matches in Hm. unfold change_blocks in *.
  destruct (matches_of_one _ _ Hm) as [code Hb].
  rewrite Hb in Hu, Ht. cbn [map concat] in Hu, Ht.
  rewrite app_nil_r in Ht.
  exists code. split; [exact Ht|]. split; [exact Hu|].
  rewrite Hu. intros E. inversion E as [E'].
  apply (f_equal (@length char)) in E'. rewrite Ht in E' at 2.
  rewrite !length_app in E'. cbn [length] in E'.
  rewrite ?length_app in E'. lia.
Qed.

Lemma single_hunk_unit_witness :
  header_matches diff_one_hunk = [lit "@@ -1 +1 @@"]
  /\ exists code,
       diff_one_hunk = leading_segment diff_one_hunk ++ lit "@@ -1 +1 @@" ++ code
       /\ split_into_hunks diff_one_hunk
          = [leading_segment diff_one_hunk ++ [NL] ++ lit "@@ -1 +1 @@" ++ code]
       /\ split_into_hunks diff_one_hunk <> [diff_one_hunk].
Proof.
  split.
  - vm_compute. reflexivity.
  - apply (single_hunk_unit diff_one_hunk (lit "@@ -1 +1 @@")).
    vm_compute. reflexivity.
Defined.

(** *** No hunk *)




End Lossless.

(** ** Whole-file review and the threshold *)

Section Threshold.

Variable CHUNK_LIMIT : Z.
Variable endpoint : list event -> str -> str -> bool -> http_result.


(** C6: a diff no longer than the threshold gets exactly one request, over
    the whole diff with [is_partial = False], and the review of that request
    is the file's final review; a longer diff is split, the hunk loop runs
    over the units of the splitter, of which there is at least one, and no
    request with [is_partial = False] is made. *)
Theorem threshold_boundary merge_base file_name raw_diff final_review st :
  ((Z.of_nat (length raw_diff) <= CHUNK_LIMIT)%Z ->
   review_diff CHUNK_LIMIT endpoint merge_base file_name raw_diff final_review st
   = (Ok (Some (review_of (endpoint (trace st) file_name raw_diff false))),
      log (HttpPost file_name raw_diff false) st))
  /\ ((CHUNK_LIMIT < Z.of_nat (length raw_diff))%Z ->
      review_diff CHUNK_LIMIT endpoint merge_base file_name raw_diff
        final_review st
      = review_hunks endpoint merge_base file_name raw_diff
          (length (split_into_hunks raw_diff)) (split_into_hunks raw_diff)
          0 [] final_review st
      /\ split_into_hunks raw_diff <> []
      /\ exists events,
           trace (snd (review_diff CHUNK_LIMIT endpoint merge_base file_name
                         raw_diff final_review st))
           = trace st ++ events
           /\ forall name content, ~ In (HttpPost name content false) events).
Proof.
  split.
  - apply review_diff_within_limit.
  - intros H. split; [|split].
    + unfold review_diff. apply Z.ltb_lt in H. rewrite H. reflexivity.
    + apply split_into_hunks_nonempty.
    + exists []. rewrite review_diff_over_limit by exact H.
      split; [symmetry; apply app_nil_r|]. intros name content [].
Qed.

End Threshold.


(** A diff of 9 characters at the thresholds 9 and 8. *)
Lemma threshold_boundary_witness :
  review_diff 9 endpoint_lgtm [] (lit "a.py") (lit "123456789") None (start [] [])
  = (Ok (Some LGTM), log (HttpPost (lit "a.py") (lit "123456789") false) (start [] []))
  /\ review_diff 8 endpoint_lgtm [] (lit "a.py") (lit "123456789") None (start [] [])
     = review_hunks endpoint_lgtm [] (lit "a.py") (lit "123456789") 1
         [lit "123456789"] 0 [] None (start [] []).
Proof.
  split.
  - apply (proj1 (threshold_boundary 9 endpoint_lgtm [] (lit "a.py")
                    (lit "123456789") None (start [] []))).
    vm_compute. discriminate.
  - apply (proj2 (threshold_boundary 8 endpoint_lgtm [] (lit "a.py")
                    (lit "123456789") None (start [] []))).
    vm_compute. reflexivity.
Defined.

(** ** The verdict of a reply *)

Section Verdict.

Lemma list_app_one_neq (A : Type) (l : list A) (x : A) : l ++ [x] <> l.
Proof.
  intros H. apply (f_equal (@length A)) in H.
  rewrite length_app in H. cbn in H. lia.
Qed.

Lemma report_unchanged_iff_clean file_name review st :
  report_lines (self (snd (store_result file_name (Some review) st)))
  = report_lines (self st)
  <-> verdict_of review = CLEAN.
Proof.
  rewrite store_result_run. cbn [snd].
  destruct (verdict_of review) as [|text]; cbn [log self report_lines].
  - split; reflexivity.
  - split; [|discriminate]. intros H. exfalso.
    exact (list_app_one_neq _ _ _ H).
Qed.

Lemma collect_unchanged_iff_clean i review file_comments :
  collect i review file_comments = file_comments
  <-> verdict_of review = CLEAN.
Proof.
  rewrite collect_verdict.
  destruct (verdict_of review) as [|text].
  - rewrite app_nil_r. split; reflexivity.
  - split; [|discriminate]. intros H. exfalso.
    exact (list_app_one_neq _ _ _ H).
Qed.

(** C4: the text extracted from a reply is the review, and the review is
    clean exactly when the token occurs somewhere in it: in the test of
    line 143 (no report entry) and in the test of line 135 (no hunk
    comment).  The two replies of the specification are clean. *)
Theorem lgtm_detection_is_substring :
  (forall r text,
     try_block r = Done text ->
     review_of r = text
     /\ (verdict_of (review_of r) = CLEAN <-> occurs_in LGTM text)
     /\ (forall file_name st,
           report_lines
             (self (snd (store_result file_name (Some (review_of r)) st)))
           = report_lines (self st)
           <-> occurs_in LGTM text)
     /\ (forall i file_comments,
           collect i (review_of r) file_comments = file_comments
           <-> occurs_in LGTM text))
  /\ verdict_of (review_of (reply_content (lit "Looks fine. LGTM"))) = CLEAN
  /\ verdict_of
       (review_of (reply_content (lit "LGTM-adjacent but actually broken: ...")))
     = CLEAN.
Proof.
  split; [|split; reflexivity].
  intros r text Ht.
  assert (review_of r = text) as Hr by (unfold review_of; rewrite Ht; reflexivity).
  rewrite Hr. split; [reflexivity|].
  assert (verdict_of text = CLEAN <-> occurs_in LGTM text) as Hv.
  { rewrite verdict_clean. apply str_in_spec. }
  split; [exact Hv|]. split.
  - intros file_name st. rewrite report_unchanged_iff_clean. exact Hv.
  - intros i file_comments. rewrite collect_unchanged_iff_clean. exact Hv.
Qed.

Lemma lgtm_detection_is_substring_witness :
  try_block (reply_content (lit " Looks fine. LGTM "))
  = Done (lit "Looks fine. LGTM")
  /\ verdict_of (review_of (reply_content (lit " Looks fine. LGTM "))) = CLEAN.
Proof.
  assert (try_block (reply_content (lit " Looks fine. LGTM "))
          = Done (lit "Looks fine. LGTM")) as Ht by (vm_compute; reflexivity).
  split; [exact Ht|].
  destruct (proj1 lgtm_detection_is_substring _ _ Ht) as (_ & Hv & _).
  apply Hv. exists (lit "Looks fine. "), []. vm_compute. reflexivity.
Defined.

(** A failed exchange becomes the text of line 101, and that text is
    flagged unless the message of the exception contains the token. *)
Lemma failure_review r msg :
  try_block r = Raised msg ->
  review_of r = lit "LLM Error: " ++ msg
  /\ (verdict_of (review_of r) = CLEAN <-> occurs_in LGTM msg).
Proof.
  intros Ht. unfold review_of. rewrite Ht. split; [reflexivity|].
  rewrite verdict_clean, <- str_in_spec.
  change (lit "LLM Error: " ++ msg) with (lit "LLM Error:" ++ 32%N :: msg).
  rewrite str_in_cut by (cbv; intuition discriminate).
  change (str_in LGTM (lit "LLM Error:")) with false.
  cbn [orb]. split; intros H; exact H.
Qed.

End Verdict.

(** ** Runs that go wrong *)

Section Defects.

(** C7: with [CHUNK_LIMIT = 50] and the one changed file [a.py] whose diff
    is [diff_two_hunks] (96 characters), [generate_report] splits the diff
    and raises [NameError] for [filename] in the first round of the hunk
    loop: no request has been made, and the exception leaves the run. *)
Theorem hunk_loop_name_error :
  50 < length diff_two_hunks
  /\ length (split_into_hunks diff_two_hunks) = 2
  /\ generate_report 50 endpoint_lgtm
       (sample_shell (lit "a.py") diff_two_hunks)
       (start (lit "main") (lit "feature"))
     = (Raise (NameError "filename"),
        {| self := new_reviewer (lit "main") (lit "feature");
           trace := trace_to_diff |}).
Proof.
  split; [vm_compute; lia|]. split; vm_compute; reflexivity.
Qed.

(** C3: the second scenario of the specification.  The endpoint would find
    the first hunk of [a.py] good and comment on the second, for which
    lines 135-138 give the merged review of the claim; the run raises
    [NameError] before the first request instead, with no merged review and
    no report entry. *)
Theorem merged_verdict_not_reached :
  review_of (endpoint_flags_second_hunk [] (lit "a.py")
               (nth 0 (split_into_hunks diff_two_hunks) []) true) = LGTM
  /\ review_of (endpoint_flags_second_hunk [] (lit "a.py")
                  (nth 1 (split_into_hunks diff_two_hunks) []) true)
     = lit "- missing null check"
  /\ merge_comments (collect_all 0 [LGTM; lit "- missing null check"] [])
     = lit "**Hunk 2:**" ++ [NL] ++ lit "- missing null check"
  /\ generate_report 50 endpoint_flags_second_hunk
       (sample_shell (lit "a.py") diff_two_hunks)
       (start (lit "main") (lit "feature"))
     = (Raise (NameError "filename"),
        {| self := new_reviewer (lit "main") (lit "feature");
           trace := trace_to_diff |}).
Proof.
  repeat split; vm_compute; reflexivity.
Qed.

(** C5: the endpoint is configured at a URL that contains the token and
    answers with status 404.  [ask_llm] returns the text of line 101 for the
    failure, the text contains the token, and the file counts as good: the
    run ends with an empty report and the notice of a clean run. *)
Theorem failed_request_counted_clean :
  review_of (endpoint_not_found [] (lit "a.py") diff_one_hunk false)
  = lit "LLM Error: 404 Client Error: Not Found for url: http://localhost:11434/LGTM/v1/chat/completions"
  /\ verdict_of (review_of (endpoint_not_found [] (lit "a.py") diff_one_hunk false))
     = CLEAN
  /\ generate_report 500 endpoint_not_found
       (sample_shell (lit "a.py") diff_one_hunk)
       (start (lit "main") (lit "feature"))
     = (Ok tt,
        {| self := new_reviewer (lit "main") (lit "feature");
           trace := trace_to_diff ++
             [HttpPost (lit "a.py") diff_one_hunk false;
              ConsolePrint (lit "[bold green]LGTM for a.py[/bold green]");
              ProgressAdvance;
              no_issues_notice] |}).
Proof.
  repeat split; vm_compute; reflexivity.
Qed.

End Defects.

(** ** The merged review of the hunks *)

Section MergedReview.

Variable endpoint : list event -> str -> str -> bool -> http_result.

(** Reviews made hunk by hunk collect what [collect_all] collects, with one
    request per hunk, marked partial, in the order of the hunks. *)
Lemma hunk_reviews_collect file_name i hunks file_comments st reviews
    file_comments' st' :
  hunk_reviews endpoint file_name i hunks file_comments st reviews
    file_comments' st' ->
  file_comments' = collect_all i reviews file_comments
  /\ length reviews = length hunks
  /\ trace st' = trace st ++ map (fun hunk => HttpPost file_name hunk true) hunks.
Proof.
  induction 1 as [i fc st | i hunk rest fc st fc1 merged st1 reviews fc2 st2
                              Hstep Hrest (IHc & IHl & IHt)].
  - split; [reflexivity|]. split; [reflexivity|].
    symmetry. apply app_nil_r.
  - rewrite review_hunk_run in Hstep. inversion Hstep; subst; clear Hstep.
    cbn [collect_all length map]. split; [reflexivity|].
    split; [rewrite IHl; reflexivity|].
    rewrite IHt. cbn [log trace]. rewrite <- app_assoc. reflexivity.
Qed.

(** The merged review is clean exactly when every review is. *)
Lemma merged_verdict_clean_iff reviews :
  verdict_of (merge_comments (collect_all 0 reviews [])) = CLEAN
  <-> Forall (fun review => verdict_of review = CLEAN) reviews.
Proof.
  rewrite collect_all_flagged. cbn [app].
  rewrite verdict_clean, str_in_merge_comments
    by apply flagged_comments_without_token.
  transitivity (flagged_comments 0 reviews = []).
  - destruct (flagged_comments 0 reviews); split;
      (reflexivity || discriminate).
  - rewrite flagged_comments_nil.
    split; apply Forall_impl; intros review; apply verdict_clean.
Qed.

(** C10: when some review is flagged, the comments the loop has collected
    are the labelled flagged reviews in hunk order, none of them contains
    the token, and neither does their merged text, so the test of line 143
    flags the file. *)
Theorem merged_comments_without_token reviews :
  Exists (fun review => verdict_of review <> CLEAN) reviews ->
  collect_all 0 reviews [] = flagged_comments 0 reviews
  /\ flagged_comments 0 reviews <> []
  /\ Forall (fun comment => str_in LGTM comment = false)
       (flagged_comments 0 reviews)
  /\ merge_comments (collect_all 0 reviews [])
     = join [NL; NL] (flagged_comments 0 reviews)
  /\ str_in LGTM (merge_comments (collect_all 0 reviews [])) = false
  /\ verdict_of (merge_comments (collect_all 0 reviews []))
     = FLAGGED (join [NL; NL] (flagged_comments 0 reviews)).
Proof.
  intros Hex.
  assert (flagged_comments 0 reviews <> []) as Hne.
  { intros E. apply flagged_comments_nil in E.
    apply Exists_exists in Hex as [review [Hin Hv]].
    rewrite Forall_forall in E. apply Hv, verdict_clean, E, Hin. }
  pose proof (flagged_comments_without_token reviews 0) as HF.
  rewrite collect_all_flagged. cbn [app].
  assert (merge_comments (flagged_comments 0 reviews)
          = join [NL; NL] (flagged_comments 0 reviews)) as Hm.
  { destruct (flagged_comments 0 reviews); [contradiction | reflexivity]. }
  assert (str_in LGTM (merge_comments (flagged_comments 0 reviews)) = false)
    as Hs.
  { rewrite str_in_merge_comments by exact HF.
    destruct (flagged_comments 0 reviews); [contradiction | reflexivity]. }
  repeat split; try assumption.
  unfold verdict_of. rewrite Hs, Hm. reflexivity.
Qed.

Lemma merged_comments_without_token_witness :
  Exists (fun review => verdict_of review <> CLEAN)
    [LGTM; lit "- missing null check"; lit "LG"; lit "TM"]
  /\ merge_comments
       (collect_all 0 [LGTM; lit "- missing null check"; lit "LG"; lit "TM"] [])
     = lit "**Hunk 2:**" ++ [NL] ++ lit "- missing null check" ++ [NL; NL]
       ++ lit "**Hunk 3:**" ++ [NL] ++ lit "LG" ++ [NL; NL]
       ++ lit "**Hunk 4:**" ++ [NL] ++ lit "TM"
  /\ str_in LGTM
       (merge_comments
          (collect_all 0 [LGTM; lit "- missing null check"; lit "LG"; lit "TM"] []))
     = false.
Proof.
  assert (Exists (fun review => verdict_of review <> CLEAN)
            [LGTM; lit "- missing null check"; lit "LG"; lit "TM"]) as Hex.
  { apply Exists_cons_tl, Exists_cons_hd. vm_compute. discriminate. }
  destruct (merged_comments_without_token _ Hex) as (_ & _ & _ & _ & Hs & _).
  split; [exact Hex|]. split; [vm_compute; reflexivity | exact Hs].
Defined.

End MergedReview.

(** ** The report *)

Section Report.

Variable CHUNK_LIMIT : Z.
Variable endpoint : list event -> str -> str -> bool -> http_result.
Variable shell : list event -> str -> shell_result.

Lemma bind_inv (A B : Type) (c : M A) (k : A -> M B) st r st' :
  bind c k st = (r, st') ->
  (exists a st1, c st = (Ok a, st1) /\ k a st1 = (r, st'))
  \/ (exists e, c st = (Raise e, st') /\ r = Raise e).
Proof.
  unfold bind. destruct (c st) as [[a|e] st1].
  - intros H. left. exists a, st1. split; [reflexivity | exact H].
  - intros H. inversion H; subst. right. exists e. split; reflexivity.
Qed.

Lemma quiet_ret (A : Type) (a : A) : quiet (ret a).
Proof. intros st r st' H. inversion H; subst. split; reflexivity. Qed.

Lemma quiet_bind (A B : Type) (c : M A) (k : A -> M B) :
  quiet c -> (forall a, quiet (k a)) -> quiet (bind c k).
Proof.
  intros Hc Hk st r st' H.
  destruct (bind_inv _ _ _ _ _ _ _ H) as [(a & st1 & H1 & H2) | (e & H1 & _)].
  - destruct (Hc _ _ _ H1) as [Hs Ht]. destruct (Hk a _ _ _ H2) as [Hs' Ht'].
    split; congruence.
  - exact (Hc _ _ _ H1).
Qed.

Lemma report_outputs_log e st :
  is_report_output e = false ->
  report_outputs (trace (log e st)) = report_outputs (trace st).
Proof.
  intros He. unfold report_outputs, log. cbn [trace].
  rewrite filter_app. cbn [filter]. rewrite He. apply app_nil_r.
Qed.

Lemma quiet_get_self : quiet get_self.
Proof. intros st r st' H. inversion H; subst. split; reflexivity. Qed.

Lemma quiet_run_command cmd : quiet (run_command shell cmd).
Proof.
  intros st r st' H. unfold run_command in H.
  destruct (shell (trace st) cmd) as [stdout|msg].
  - inversion H; subst.
    split; [reflexivity | apply report_outputs_log; reflexivity].
  - cbv [bind emit raise] in H. inversion H; subst. split; [reflexivity|].
    rewrite !report_outputs_log; reflexivity.
Qed.

Lemma quiet_get_changed_files merge_base :
  quiet (get_changed_files shell merge_base).
Proof.
  unfold get_changed_files.
  apply quiet_bind; [apply quiet_get_self | intros me].
  apply quiet_bind; [apply quiet_run_command | intros stats].
  apply quiet_ret.
Qed.

Lemma quiet_get_file_diff merge_base file_name :
  quiet (get_file_diff shell merge_base file_name).
Proof.
  unfold get_file_diff.
  apply quiet_bind; [apply quiet_get_self | intros me].
  apply quiet_run_command.
Qed.

Lemma quiet_review_diff merge_base file_name raw_diff final_review :
  quiet (review_diff CHUNK_LIMIT endpoint merge_base file_name raw_diff
           final_review).
Proof.
  intros st r st' H.
  destruct (Z.ltb_spec CHUNK_LIMIT (Z.of_nat (length raw_diff))) as [Hlt|Hge].
  - rewrite review_diff_over_limit in H by exact Hlt.
    inversion H; subst. split; reflexivity.
  - rewrite review_diff_within_limit in H by exact Hge.
    inversion H; subst.
    split; [reflexivity | apply report_outputs_log; reflexivity].
Qed.

(** A diff that is reviewed yields a review. *)
Lemma review_diff_ok merge_base file_name raw_diff final_review st r st' :
  review_diff CHUNK_LIMIT endpoint merge_base file_name raw_diff final_review st
  = (Ok r, st') ->
  exists review, r = Some review.
Proof.
  intros H.
  destruct (Z.ltb_spec CHUNK_LIMIT (Z.of_nat (length raw_diff))) as [Hlt|Hge].
  - rewrite review_diff_over_limit in H by exact Hlt. discriminate.
  - rewrite review_diff_within_limit in H by exact Hge.
    inversion H; subst. eexists. reflexivity.
Qed.

(** Lines 143-147 add the entry of the file and nothing else. *)
Lemma store_result_effect file_name review st :
  exists st',
    store_result file_name (Some review) st = (Ok tt, st')
    /\ self st' = with_entries (self st) (entry_of file_name review)
    /\ report_outputs (trace st') = report_outputs (trace st).
Proof.
  rewrite store_result_run. eexists. split; [reflexivity|].
  unfold entry_of, with_entries.
  destruct (verdict_of review) as [|text]; cbn [log self trace].
  - split.
    + rewrite app_nil_r. destruct (self st). reflexivity.
    + apply (report_outputs_log _ st). reflexivity.
  - split; [reflexivity|].
    unfold report_outputs. rewrite filter_app. cbn [filter].
    change (is_report_output _) with false. apply app_nil_r.
Qed.

Lemma with_entries_nil me : with_entries me [] = me.
Proof. unfold with_entries. rewrite app_nil_r. destruct me. reflexivity. Qed.

Lemma with_entries_app me a b :
  with_entries (with_entries me a) b = with_entries me (a ++ b).
Proof. unfold with_entries. cbn. rewrite app_assoc. reflexivity. Qed.

(** The body of the loop over the files: the file adds its entry, or the
    body raises and adds nothing. *)
Lemma review_file_effect merge_base file_name final_review st r st' :
  review_file CHUNK_LIMIT endpoint shell merge_base file_name final_review st
  = (r, st') ->
  report_outputs (trace st') = report_outputs (trace st)
  /\ match r with
     | Ok final_review' =>
         exists review,
           final_review' = Some review
           /\ self st' = with_entries (self st) (entry_of file_name review)
     | Raise _ => self st' = self st
     end.
Proof.
  unfold review_file. intros H.
  destruct (bind_inv _ _ _ _ _ _ _ H) as [(u & st1 & H1 & H2) | (e & H1 & _)];
    [|discriminate H1].
  clear H. inversion H1; subst; clear H1.
  assert (self (log (ProgressUpdate (lit "Reviewing " ++ file_name ++ lit "..."))
                 st) = self st) as Hs1 by reflexivity.
  pose proof (report_outputs_log
                (ProgressUpdate (lit "Reviewing " ++ file_name ++ lit "..."))
                st eq_refl) as Ht1.
  set (st1 := log _ st) in *.
  destruct (bind_inv _ _ _ _ _ _ _ H2) as [(raw & st2 & H3 & H4) | (e & H3 & ->)];
    clear H2.
  2:{ destruct (quiet_get_file_diff _ _ _ _ _ H3) as [Hs Ht].
      split; congruence. }
  destruct (quiet_get_file_diff _ _ _ _ _ H3) as [Hs2 Ht2].
  destruct (bind_inv _ _ _ _ _ _ _ H4) as [(fr & st3 & H5 & H6) | (e & H5 & ->)];
    clear H4.
  2:{ destruct (quiet_review_diff _ _ _ _ _ _ _ H5) as [Hs Ht].
      split; congruence. }
  destruct (quiet_review_diff _ _ _ _ _ _ _ H5) as [Hs3 Ht3].
  destruct (review_diff_ok _ _ _ _ _ _ _ H5) as [review ->].
  destruct (store_result_effect file_name review st3) as (st4 & H7 & Hs4 & Ht4).
  unfold bind in H6. rewrite H7 in H6. cbv [emit ret] in H6.
  inversion H6; subst; clear H6.
  split.
  - rewrite report_outputs_log by reflexivity. congruence.
  - exists review. split; [reflexivity|]. cbn [log self]. congruence.
Qed.

(** The loop over the files: the report grows by the entries of the files
    reviewed, in the order of the files. *)
Lemma review_files_effect merge_base files : forall final_review st r st',
  review_files CHUNK_LIMIT endpoint shell merge_base files final_review st
  = (r, st') ->
  report_outputs (trace st') = report_outputs (trace st)
  /\ exists done reviews st1,
       reviews_of CHUNK_LIMIT endpoint shell merge_base done final_review st
         reviews st1
       /\ self st'
          = with_entries (self st) (report_entries (combine done reviews))
       /\ (exists rest, files = done ++ rest)
       /\ (r = Ok tt -> done = files /\ st1 = st').
Proof.
  induction files as [|file_name rest IH]; intros final_review st r st' H.
  - inversion H; subst. split; [reflexivity|]. exists [], [], st'.
    split; [constructor|].
    split; [symmetry; apply with_entries_nil|].
    split; [exists []; reflexivity|]. intros _. split; reflexivity.
  - cbn [review_files] in H.
    destruct (bind_inv _ _ _ _ _ _ _ H) as [(fr & st1 & H1 & H2) | (e & H1 & ->)];
      clear H.
    + destruct (review_file_effect _ _ _ _ _ _ H1) as [Ht1 (review & -> & Hs1)].
      destruct (IH _ _ _ _ H2)
        as [Ht2 (done & reviews & st2 & Hrev & Hs2 & [rest' Hrest] & Hok)].
      split; [congruence|].
      exists (file_name :: done), (review :: reviews), st2.
      split; [econstructor; eassumption|].
      split; [rewrite Hs2, Hs1, with_entries_app; reflexivity|].
      split; [exists rest'; rewrite Hrest; reflexivity|].
      intros Hr. destruct (Hok Hr) as [-> ->]. split; reflexivity.
    + destruct (review_file_effect _ _ _ _ _ _ H1) as [Ht1 Hs1].
      split; [exact Ht1|]. exists [], [], st.
      split; [constructor|].
      split; [rewrite Hs1; symmetry; apply with_entries_nil|].
      split; [exists (file_name :: rest); reflexivity | discriminate].
Qed.

Lemma reviews_of_length merge_base done final_review st reviews st1 :
  reviews_of CHUNK_LIMIT endpoint shell merge_base done final_review st
    reviews st1 ->
  length reviews = length done.
Proof. induction 1; cbn [length]; congruence. Qed.

(** Lines 156-166: the file is written when the report has entries, the
    notice of a clean run is printed when it has none. *)
Lemma save_report_run st :
  save_report st
  = (Ok tt,
     match report_lines (self st) with
     | [] => log no_issues_notice st
     | _ :: _ => log saved_notice (log (report_file (self st)) st)
     end).
Proof.
  unfold save_report, bind, get_self.
  destruct (report_lines (self st)) eqn:E; unfold report_file;
    try rewrite E; reflexivity.
Qed.

Lemma report_outputs_save_report st :
  report_outputs (trace (snd (save_report st)))
  = report_outputs (trace st)
    ++ match report_lines (self st) with
       | [] => [no_issues_notice]
       | _ :: _ => [report_file (self st); saved_notice]
       end.
Proof.
  rewrite save_report_run. cbn [snd]. unfold report_outputs.
  destruct (report_lines (self st)); cbn [log trace self];
    rewrite !filter_app; cbn [filter]; rewrite <- ?app_assoc; reflexivity.
Qed.

Lemma self_save_report st : self (snd (save_report st)) = self st.
Proof.
  rewrite save_report_run. cbn [snd].
  destruct (report_lines (self st)); reflexivity.
Qed.

(** A whole run: the files reviewed before it ends or stops, and what
    [save_report] puts out when it ends. *)
Lemma generate_report_effect st r st' :
  generate_report CHUNK_LIMIT endpoint shell st = (r, st') ->
  exists merge_base done reviews st0 st1,
    reviews_of CHUNK_LIMIT endpoint shell merge_base done None st0 reviews st1
    /\ self st' = with_entries (self st) (report_entries (combine done reviews))
    /\ (r = Ok tt ->
        (exists st2 st3,
           get_changed_files shell merge_base st2 = (Ok done, st3))
        /\ report_outputs (trace st')
           = report_outputs (trace st)
             ++ match done with
                | [] => []
                | _ :: _ =>
                    match report_lines (self st') with
                    | [] => [no_issues_notice]
                    | _ :: _ => [report_file (self st'); saved_notice]
                    end
                end
        /\ (done = [] -> exists events, trace st' = events ++ [no_changes_notice])).
Proof.
  unfold generate_report. intros H.
  assert (forall e, self st' = self st -> r = Raise e ->
          exists merge_base done reviews st0 st1,
            reviews_of CHUNK_LIMIT endpoint shell merge_base done None st0
              reviews st1
            /\ self st'
               = with_entries (self st) (report_entries (combine done reviews))
            /\ (r = Ok tt ->
                (exists st2 st3,
                   get_changed_files shell merge_base st2 = (Ok done, st3))
                /\ report_outputs (trace st')
                   = report_outputs (trace st)
                     ++ match done with
                        | [] => []
                        | _ :: _ =>
                            match report_lines (self st') with
                            | [] => [no_issues_notice]
                            | _ :: _ => [report_file (self st'); saved_notice]
                            end
                        end
                /\ (done = [] ->
                    exists events, trace st' = events ++ [no_changes_notice])))
    as Hraise.
  { intros e Hs ->. exists [], [], [], st, st. split; [constructor|].
    split; [rewrite Hs; symmetry; apply with_entries_nil | discriminate]. }
  destruct (bind_inv _ _ _ _ _ _ _ H) as [(me & st0 & H0 & H1) | (e & H0 & _)];
    [|discriminate H0].
  clear H. inversion H0; subst; clear H0.
  destruct (bind_inv _ _ _ _ _ _ _ H1) as [(u & st1 & H2 & H3) | (e & H2 & _)];
    [|discriminate H2].
  clear H1. inversion H2; subst; clear H2.
  match type of H3 with context [log ?e st0] =>
    pose proof (report_outputs_log e st0 eq_refl) as Ht1;
    assert (self (log e st0) = self st0) as Hs1 by reflexivity;
    set (st1 := log e st0) in *
  end.
  destruct (bind_inv _ _ _ _ _ _ _ H3) as [(mb & st2 & H4 & H5) | (e & H4 & Hr)];
    clear H3.
  2:{ destruct (quiet_run_command _ _ _ _ H4) as [Hs _].
      apply (Hraise e); congruence. }
  destruct (quiet_run_command _ _ _ _ H4) as [Hs2 Ht2].
  destruct (bind_inv _ _ _ _ _ _ _ H5) as [(files & st3 & H6 & H7) | (e & H6 & Hr)];
    clear H5.
  2:{ destruct (quiet_get_changed_files _ _ _ _ H6) as [Hs _].
      apply (Hraise e); congruence. }
  destruct (quiet_get_changed_files _ _ _ _ H6) as [Hs3 Ht3].
  destruct files as [|file_name rest].
  - inversion H7; subst; clear H7. exists mb, [], [], st3, st3.
    split; [constructor|].
    split; [cbn [log self]; rewrite with_entries_nil; congruence|].
    intros _. split; [exists st2, st3; exact H6|].
    split.
    + rewrite report_outputs_log by reflexivity. rewrite app_nil_r. congruence.
    + intros _. exists (trace st3). reflexivity.
  - destruct (bind_inv _ _ _ _ _ _ _ H7) as [(u & st4 & H8 & H9) | (e & H8 & _)];
      [|discriminate H8].
    clear H7. inversion H8; subst; clear H8.
    match type of H9 with context [log ?e st3] =>
      pose proof (report_outputs_log e st3 eq_refl) as Ht4;
      assert (self (log e st3) = self st3) as Hs4 by reflexivity;
      set (st4 := log e st3) in *
    end.
    destruct (bind_inv _ _ _ _ _ _ _ H9) as [(u & st5 & H10 & H11) | (e & H10 & Hr)];
      clear H9.
    + destruct (review_files_effect _ _ _ _ _ _ H10)
        as [Ht5 (done & reviews & st6 & Hrev & Hs5 & _ & Hok)].
      destruct u. destruct (Hok eq_refl) as [-> ->].
      pose proof (save_report_run st5) as Hsave. rewrite H11 in Hsave.
      assert (r = Ok tt) as -> by congruence.
      assert (st' = snd (save_report st5)) as Hst by (rewrite H11; reflexivity).
      exists mb, (file_name :: rest), reviews, st4, st5.
      split; [exact Hrev|].
      assert (self st' = self st5) as Hs6
        by (rewrite Hst; apply self_save_report).
      split; [congruence|].
      intros _. split; [exists st2, st3; exact H6|].
      split; [|discriminate].
      rewrite Hs6, Hst, report_outputs_save_report, Ht5, Ht4, Ht3, Ht2, Ht1.
      destruct (report_lines (self st5)); reflexivity.
    + destruct (review_files_effect _ _ _ _ _ _ H10)
        as [_ (done & reviews & st6 & Hrev & Hs5 & _ & _)].
      subst r. exists mb, done, reviews, st4, st6.
      split; [exact Hrev|]. split; [congruence | discriminate].
Qed.

End Report.

(** C8 as stated fails: a run that finds no changed file ends with an empty
    report and prints that there are no changes; the notice of a clean run
    is not printed, [save_report] is not reached. *)
Lemma no_changes_no_notice :
  generate_report 500 endpoint_lgtm (sample_shell [] diff_one_hunk)
    (start (lit "main") (lit "feature"))
  = (Ok tt,
     {| self := new_reviewer (lit "main") (lit "feature");
        trace :=
          [ConsolePrint (lit "[bold blue]Starting Review:[/bold blue] main <- feature");
           ShellCommand (lit "git merge-base origin/main feature");
           ShellCommand (lit "git diff --name-only abc123 feature");
           no_changes_notice] |})
  /\ report_lines (new_reviewer (lit "main") (lit "feature")) = []
  /\ ~ In no_issues_notice
       (trace (snd (generate_report 500 endpoint_lgtm
                      (sample_shell [] diff_one_hunk)
                      (start (lit "main") (lit "feature"))))).
Proof.
  split; [vm_compute; reflexivity|]. split; [reflexivity|].
  vm_compute. intuition discriminate.
Qed.

(** C8, amended: in every run the report holds the entries of the files
    reviewed so far whose final review is flagged, and no other, in the
    order in which the files were reviewed.  When the run returns, the files
    reviewed are the changed files; with changed files and no entry,
    [save_report] prints the notice of a clean run and writes no file; with
    entries it writes [PR_REVIEW.md] once; with no changed file the run
    prints that there are no changes, and neither the file nor the
    notice. *)
Theorem report_contents_and_order CHUNK_LIMIT endpoint shell target source r st' :
  generate_report CHUNK_LIMIT endpoint shell (start target source) = (r, st') ->
  exists merge_base done reviews st0 st1,
    reviews_of CHUNK_LIMIT endpoint shell merge_base done None st0 reviews st1
    /\ report_lines (self st') = report_entries (combine done reviews)
    /\ (r = Ok tt ->
        (exists st2 st3,
           get_changed_files shell merge_base st2 = (Ok done, st3))
        /\ report_outputs (trace st')
           = match done with
             | [] => []
             | _ :: _ =>
                 match report_lines (self st') with
                 | [] => [no_issues_notice]
                 | _ :: _ => [report_file (self st'); saved_notice]
                 end
             end
        /\ (done = [] -> exists events, trace st' = events ++ [no_changes_notice])).
Proof.
  intros H.
  destruct (generate_report_effect _ _ _ _ _ _ H)
    as (merge_base & done & reviews & st0 & st1 & Hrev & Hs & Hok).
  exists merge_base, done, reviews, st0, st1. split; [exact Hrev|].
  split; [rewrite Hs; reflexivity|].
  intros Hr. destruct (Hok Hr) as (Hfiles & Hout & Hnone).
  repeat split; assumption.
Qed.

Lemma report_contents_and_order_witness :
  generate_report 500 endpoint_comment (sample_shell (lit "a.py") diff_one_hunk)
    (start (lit "main") (lit "feature"))
  = (Ok tt, state_after_flagged_run)
  /\ exists done reviews,
       length reviews = length done
       /\ report_lines (self state_after_flagged_run)
          = report_entries (combine done reviews)
       /\ report_outputs (trace state_after_flagged_run)
          = match done with
            | [] => []
            | _ :: _ => [report_file (self state_after_flagged_run); saved_notice]
            end.
Proof.
  assert (generate_report 500 endpoint_comment
            (sample_shell (lit "a.py") diff_one_hunk)
            (start (lit "main") (lit "feature"))
          = (Ok tt, state_after_flagged_run)) as H by (vm_compute; reflexivity).
  split; [exact H|].
  destruct (report_contents_and_order _ _ _ _ _ _ _ H)
    as (merge_base & done & reviews & st0 & st1 & Hrev & Hs & Hok).
  destruct (Hok eq_refl) as (_ & Hout & _).
  exists done, reviews.
  split; [exact (reviews_of_length _ _ _ _ _ _ _ _ _ Hrev)|].
  split; [exact Hs|].
  rewrite Hout. destruct done; reflexivity.
Defined.

(** * Further properties *)

(** ** Whitespace at the ends of a text *)

Section Stripping.

Lemma lstrip_head s :
  match lstrip s with
  | c :: _ => is_space c = false
  | [] => True
  end.
Proof.
  induction s as [|c s IH]; cbn [lstrip]; [exact I|].
  destruct (is_space c) eqn:E; [exact IH | exact E].
Qed.

Lemma lstrip_fixed s :
  match s with
  | c :: _ => is_space c = false
  | [] => True
  end ->
  lstrip s = s.
Proof.
  destruct s as [|c s]; [reflexivity|]. cbn [lstrip]. intros ->. reflexivity.
Qed.

Lemma lstrip_suffix s :
  exists ws, s = ws ++ lstrip s /\ forallb is_space ws = true.
Proof.
  induction s as [|c s (ws & Hs & Hw)]; [exists []; split; reflexivity|].
  cbn [lstrip]. destruct (is_space c) eqn:E.
  - exists (c :: ws). cbn [app forallb]. rewrite E, Hw, <- Hs.
    split; reflexivity.
  - exists []. split; reflexivity.
Qed.

Lemma rev_last (s : str) c d :
  rev (c :: s) = last (c :: s) d :: rev (removelast (c :: s)).
Proof.
  rewrite (app_removelast_last d (l := c :: s)) at 1 by discriminate.
  rewrite rev_app_distr. reflexivity.
Qed.


Lemma strip_is_stripped s : is_stripped (strip s) = true.
Proof.
  unfold strip.
  pose proof (lstrip_head s) as Ht.
  destruct (lstrip_suffix (rev (lstrip s))) as (ws & Hr & _).
  pose proof (lstrip_head (rev (lstrip s))) as Hu.
  set (t := lstrip s) in *. set (u := lstrip (rev t)) in *.
  destruct u as [|c u']; [reflexivity|].
  apply (f_equal (@rev char)) in Hr.
  rewrite rev_involutive, rev_app_distr in Hr.
  destruct (rev (c :: u')) as [|d r] eqn:E.
  { apply (f_equal (@length char)) in E. rewrite length_rev in E.
    discriminate. }
  unfold is_stripped.
  assert (is_space d = false) as ->.
  { rewrite Hr in Ht. exact Ht. }
  rewrite <- E. cbn [rev]. rewrite last_last, Hu. reflexivity.
Qed.

Lemma strip_fixed s : is_stripped s = true -> strip s = s.
Proof.
  destruct s as [|c s]; [reflexivity|].
  unfold is_stripped. rewrite andb_true_iff, !negb_true_iff.
  intros [Hc Hl]. unfold strip.
  rewrite (lstrip_fixed (c :: s)) by exact Hc.
  rewrite lstrip_fixed; [apply rev_involutive|].
  rewrite (rev_last s c c). exact Hl.
Qed.

Lemma occurs_in_rev p s : occurs_in p s -> occurs_in (rev p) (rev s).
Proof.
  intros (a & b & ->). exists (rev b), (rev a).
  rewrite !rev_app_distr, <- app_assoc. reflexivity.
Qed.

Lemma str_in_rev p s : str_in (rev p) (rev s) = str_in p s.
Proof.
  apply eq_true_iff_eq. rewrite !str_in_spec. split.
  - intros H. apply occurs_in_rev in H. rewrite !rev_involutive in H. exact H.
  - apply occurs_in_rev.
Qed.

(** Whitespace in front of a text hides no word that starts with another
    character. *)
Lemma str_in_lstrip c p s :
  is_space c = false -> str_in (c :: p) (lstrip s) = str_in (c :: p) s.
Proof.
  intros Hc. induction s as [|x s IH]; [reflexivity|].
  cbn [lstrip]. destruct (is_space x) eqn:E; [|reflexivity].
  rewrite IH. cbn [str_in startswith].
  destruct (N.eqb_spec c x) as [->|_]; [congruence | reflexivity].
Qed.

Lemma str_in_strip c p d s :
  is_space c = false -> is_space (last (c :: p) d) = false ->
  str_in (c :: p) (strip s) = str_in (c :: p) s.
Proof.
  intros Hc Hl. unfold strip.
  rewrite <- (rev_involutive (c :: p)) at 1. rewrite str_in_rev.
  rewrite (rev_last p c d). rewrite str_in_lstrip by exact Hl.
  rewrite <- (rev_last p c d). rewrite str_in_rev.
  apply str_in_lstrip, Hc.
Qed.

Lemma str_in_LGTM_strip s : str_in LGTM (strip s) = str_in LGTM s.
Proof. apply (str_in_strip _ _ 0%N); reflexivity. Qed.

End Stripping.

(** ** The commands *)

Section Commands.

Variable shell : list event -> str -> shell_result.

(** What [run_command] does, by the answer of the shell. *)
Lemma run_command_result cmd st r st' :
  run_command shell cmd st = (r, st') ->
  self st' = self st
  /\ match r with
     | Ok out =>
         exists stdout,
           shell (trace st) cmd = Output stdout
           /\ out = strip stdout
           /\ is_stripped out = true /\ strip out = out
           /\ trace st' = trace st ++ [ShellCommand cmd]
     | Raise e =>
         exists msg,
           shell (trace st) cmd = CalledProcessError msg
           /\ e = SystemExit 1
           /\ trace st' = trace st ++ [ShellCommand cmd; git_error_notice msg]
     end.
Proof.
  unfold run_command. destruct (shell (trace st) cmd) as [stdout|msg].
  - intros H; inversion H; subst. split; [reflexivity|]. exists stdout.
    pose proof (strip_is_stripped stdout) as Hs.
    repeat split; [exact Hs | apply strip_fixed, Hs].
  - cbv [bind emit raise]. intros H; inversion H; subst.
    split; [reflexivity|]. exists msg. repeat split.
    cbn [log trace]. rewrite <- app_assoc. reflexivity.
Qed.





End Commands.



(** ** The units of the splitter, for every text *)

Section Units.

Lemma in_concat_length (l : list str) x :
  In x l -> length x <= length (concat l).
Proof.
  induction l as [|y l IH]; [contradiction|].
  cbn [concat]. rewrite length_app. intros [->|H]; [lia|].
  specialize (IH H). lia.
Qed.

Lemma no_match_leading_segment text :
  tl (re_split text) = [] -> leading_segment text = text.
Proof.
  intros H. pose proof (re_split_from_concat true [] text) as Hc.
  fold (re_split text) in Hc. rewrite re_split_parts, H in Hc.
  cbn in Hc. rewrite app_nil_r in Hc. exact Hc.
Qed.

(** X3.  Lines 44-64, for every text: the result is never empty; every unit
    starts with the text before the first match, and is at most one
    character longer than the text that was split. *)
Theorem split_units_bounded text :
  split_into_hunks text <> []
  /\ Forall (fun unit =>
               startswith (leading_segment text) unit = true
               /\ length unit <= length text + 1)
       (split_into_hunks text).
Proof.
  split; [apply split_into_hunks_nonempty|].
  rewrite split_into_hunks_parts.
  destruct (tl (re_split text)) as [|h rest] eqn:E.
  - constructor; [|constructor]. split; [|lia].
    rewrite (no_match_leading_segment _ E).
    apply startswith_spec. exists []. symmetry. apply app_nil_r.
  - apply Forall_map, Forall_forall. intros block Hin. split.
    + apply startswith_spec. eexists. reflexivity.
    + apply in_concat_length in Hin.
      rewrite (text_parts text) at 2.
      rewrite !length_app. cbn [length]. lia.
Qed.

(** X4.  Lines 50-62, for every text in which the pattern matches: there are
    as many units as matches; each starts with the leading segment and a
    newline; what follows these in the units, put together in order, is the
    text after the leading segment.  Nothing of the text is lost, also when
    a match extends over a line break. *)
Theorem split_units_rebuild_text text :
  header_matches text <> [] ->
  length (split_into_hunks text) = length (header_matches text)
  /\ Forall (fun unit => startswith (leading_segment text ++ [NL]) unit = true)
       (split_into_hunks text)
  /\ leading_segment text
     ++ concat (map (change_block (leading_segment text))
                  (split_into_hunks text))
     = text.
Proof.
  intros Hne.
  destruct (split_into_hunks_by_matches text Hne) as (Hl & Hu & Hb & Ht).
  split; [exact Hl|]. split.
  - rewrite Hu. apply Forall_map, Forall_forall. intros block _.
    apply startswith_spec. exists block. rewrite <- app_assoc. reflexivity.
  - rewrite Hb. symmetry. exact Ht.
Qed.

Lemma endswith_app p a s : endswith p s = true -> endswith p (a ++ s) = true.
Proof.
  unfold endswith. rewrite !startswith_spec. intros [r H].
  exists (r ++ rev a). rewrite rev_app_distr, H, app_assoc. reflexivity.
Qed.

Lemma removelast_map (A B : Type) (f : A -> B) l :
  removelast (map f l) = map f (removelast l).
Proof.
  induction l as [|x [|y l] IH]; try reflexivity.
  change (f x :: removelast (map f (y :: l)) = f x :: map f (removelast (y :: l))).
  rewrite IH. reflexivity.
Qed.

(** The scan finds a match only at the start of the text or after a
    newline: the text before a match is empty at the very start, or ends
    with a newline. *)
Lemma re_split_from_line_starts bol seg s :
  (bol = true -> seg = [] \/ exists t, seg = NL :: t) ->
  (tl (re_split_from bol seg s) <> [] ->
   endswith [NL] (hd [] (re_split_from bol seg s)) = true
   \/ (bol = true /\ seg = [] /\ hd [] (re_split_from bol seg s) = []))
  /\ Forall (fun block => endswith [NL] block = true)
       (removelast (blocks_of (tl (re_split_from bol seg s)))).
Proof.
  funelim (re_split_from bol seg s); simp re_split_from;
    try (rewrite <- Heqcall; clear Heqcall); intros Hinv.
  - split; [intros Hn; contradiction Hn; reflexivity | constructor].
  - destruct H as [Ha Hb].
    { intros Hc. apply N.eqb_eq in Hc. subst c. right. eexists. reflexivity. }
    split; [|exact Hb]. intros Hn. destruct (Ha Hn) as [Hl | (_ & Hs & _)];
      [left; exact Hl | discriminate Hs].
  - destruct H as [Ha Hb]; [discriminate|].
    pose proof (re_split_from_nonempty false [] rest) as Hne.
    destruct (re_split_from false [] rest) as [|x X]; [contradiction|].
    cbn [tl hd blocks_of] in *. split.
    + intros _. destruct (Hinv eq_refl) as [-> | [t ->]];
        [right; repeat split; reflexivity | left].
      unfold endswith. cbn [rev app]. rewrite rev_app_distr. cbn.
      reflexivity.
    + destruct (blocks_of X) as [|b bs] eqn:Eb; [constructor|].
      change (removelast ((m ++ x) :: b :: bs))
        with ((m ++ x) :: removelast (b :: bs)).
      constructor; [|exact Hb].
      apply endswith_app. destruct Ha as [Hl | (Hf & _)];
        [| exact Hl | discriminate Hf].
      intros ->. discriminate Eb.
  - destruct H as [Ha Hb].
    { intros Hc. apply N.eqb_eq in Hc. subst c. right. eexists. reflexivity. }
    split; [|exact Hb]. intros Hn. destruct (Ha Hn) as [Hl | (_ & Hs & _)];
      [left; exact Hl | discriminate Hs].
Qed.

(** X5.  Line 50, the anchor of the pattern: when the pattern matches, the
    leading segment is empty or ends with a newline, and every unit but the
    last ends with a newline.  A unit made of a non-empty leading segment
    thus has two newlines before its header. *)
Theorem matches_start_lines text :
  header_matches text <> [] ->
  (leading_segment text = [] \/ endswith [NL] (leading_segment text) = true)
  /\ Forall (fun unit => endswith [NL] unit = true)
       (removelast (split_into_hunks text)).
Proof.
  intros Hne.
  assert (tl (re_split text) <> []) as Ht.
  { intros E. apply Hne. unfold header_matches. rewrite E. reflexivity. }
  destruct (re_split_from_line_starts true [] text) as [Ha Hb];
    [left; reflexivity|].
  split.
  - unfold leading_segment, re_split.
    destruct (Ha Ht) as [Hl | (_ & _ & He)]; [right; exact Hl | left; exact He].
  - destruct (split_into_hunks_by_matches text Hne) as (_ & -> & _).
    rewrite removelast_map. apply Forall_map.
    revert Hb. apply Forall_impl. intros block Hblock.
    rewrite app_assoc. apply endswith_app, Hblock.
Qed.

Lemma match_lazy_shape s m rest :
  match_lazy s = Some (m, rest) ->
  exists body b,
    m = body ++ [b; AT; AT] /\ is_space b = true /\ ~ In NL body
    /\ forall x w y, body = x ++ [w; AT; AT] ++ y -> is_space w = false.
Proof.
  revert m rest. induction s as [|c s IH]; intros m rest; cbn [match_lazy];
    [discriminate|].
  destruct (is_space c && startswith [AT; AT] s) eqn:E.
  - intros H; inversion H; subst. apply andb_true_iff in E as [Hc _].
    exists [], c. split; [reflexivity|]. split; [exact Hc|].
    split; [intros []|]. intros [|? ?] w y Hx; discriminate Hx.
  - destruct (N.eqb_spec c NL) as [|Hn]; [discriminate|].
    destruct (match_lazy s) as [[m1 r1]|] eqn:El; [|discriminate].
    intros H; inversion H; subst.
    destruct (IH _ _ eq_refl) as (body & b & -> & Hb & Hin & Hmin).
    exists (c :: body), b. split; [reflexivity|]. split; [exact Hb|]. split.
    + intros [Hc | Hc]; [apply Hn; rewrite Hc; reflexivity | exact (Hin Hc)].
    + intros [|x0 x] w y Hx; inversion Hx; subst.
      * apply match_lazy_app in El.
        assert (startswith [AT; AT] s = true) as Hs.
        { apply startswith_spec. eexists. rewrite El. reflexivity. }
        rewrite Hs, andb_true_r in E. exact E.
      * eapply Hmin. reflexivity.
Qed.

(** X6.  Line 50, the pattern: every match is [@@], a whitespace character,
    a text without a newline, a whitespace character and [@@]; it has at
    least six characters, and it ends at the first whitespace character that
    [@@] follows: what the header line holds after that belongs to the text
    after the match. *)
Theorem header_match_shape text :
  Forall (fun m =>
            exists a body b,
              m = [AT; AT; a] ++ body ++ [b; AT; AT]
              /\ is_space a = true /\ is_space b = true /\ ~ In NL body
              /\ forall x w y,
                   body = x ++ [w; AT; AT] ++ y -> is_space w = false)
    (header_matches text).
Proof.
  unfold header_matches, re_split.
  pose proof (re_split_from_matches true [] text) as H.
  revert H. apply Forall_impl. intros m Hm. specialize (Hm []).
  rewrite app_nil_r in Hm.
  destruct m as [|x [|y [|a s]]]; cbn [match_header] in Hm; try discriminate.
  destruct ((x =? AT)%N && (y =? AT)%N && is_space a) eqn:E; [|discriminate].
  apply andb_true_iff in E as [E Ha]. apply andb_true_iff in E as [Hx Hy].
  apply N.eqb_eq in Hx, Hy. subst x y.
  destruct (match_lazy s) as [[m1 r1]|] eqn:El; [|discriminate].
  destruct (match_lazy_shape _ _ _ El) as (body & b & -> & Hb & Hin & Hmin).
  inversion Hm; subst. exists a, body, b. repeat split; assumption.
Qed.

End Units.

Lemma split_units_rebuild_text_witness :
  header_matches text_match_over_lines <> []
  /\ leading_segment text_match_over_lines
     ++ concat (map (change_block (leading_segment text_match_over_lines))
                  (split_into_hunks text_match_over_lines))
     = text_match_over_lines.
Proof.
  assert (header_matches text_match_over_lines <> []) as H
    by (vm_compute; discriminate).
  split; [exact H|].
  exact (proj2 (proj2 (split_units_rebuild_text _ H))).
Defined.

Lemma matches_start_lines_witness :
  header_matches diff_two_hunks <> []
  /\ endswith [NL] (leading_segment diff_two_hunks) = true
  /\ Forall (fun unit => endswith [NL] unit = true)
       (removelast (split_into_hunks diff_two_hunks)).
Proof.
  assert (header_matches diff_two_hunks <> []) as H
    by (vm_compute; discriminate).
  split; [exact H|]. split; [vm_compute; reflexivity|].
  exact (proj2 (matches_start_lines _ H)).
Defined.

(** ** Reading the reply *)

Section Reply.

Variable endpoint : list event -> str -> str -> bool -> http_result.

Lemma attempt_bind_done (A B : Type) (c : attempt A) (k : A -> attempt B) b :
  attempt_bind c k = Done b -> exists a, c = Done a /\ k a = Done b.
Proof.
  destruct c as [a|msg]; cbn [attempt_bind]; [|discriminate].
  intros H. exists a. split; [reflexivity | exact H].
Qed.

Lemma attempt_bind_raised (A B : Type) (c : attempt A) (k : A -> attempt B) msg :
  attempt_bind c k = Raised msg ->
  c = Raised msg \/ exists a, c = Done a /\ k a = Raised msg.
Proof.
  destruct c as [a|msg']; cbn [attempt_bind]; intros H.
  - right. exists a. split; [reflexivity | exact H].
  - left. inversion H. reflexivity.
Qed.

Lemma py_strip_done j text :
  py_strip j = Done text -> exists s, text = strip s.
Proof.
  destruct j; try discriminate. intros H; inversion H. eexists. reflexivity.
Qed.

(** A text read off a reply has been stripped. *)
Lemma extract_content_done body text :
  extract_content body = Done text -> exists s, text = strip s.
Proof.
  unfold extract_content. intros H.
  apply attempt_bind_done in H as (choices & _ & H).
  destruct (truthy choices).
  - apply attempt_bind_done in H as (first & _ & H).
    apply attempt_bind_done in H as (message & _ & H).
    apply attempt_bind_done in H as (content & _ & H).
    exact (py_strip_done _ _ H).
  - apply attempt_bind_done in H as (response & _ & H).
    exact (py_strip_done _ _ H).
Qed.

Lemma py_get_raised j key default msg :
  py_get j key default = Raised msg ->
  str_in LGTM (lit "LLM Error: " ++ msg) = false.
Proof.
  destruct j; cbn [py_get]; intros H; inversion H; subst; vm_compute;
    reflexivity.
Qed.

Lemma py_first_raised j msg :
  py_first j = Raised msg ->
  str_in LGTM (lit "LLM Error: " ++ msg) = false.
Proof.
  destruct j as [| | | |s|l|items]; cbn [py_first]; try destruct s;
    try destruct l; intros H; inversion H; subst; vm_compute; reflexivity.
Qed.

Lemma py_strip_raised j msg :
  py_strip j = Raised msg ->
  str_in LGTM (lit "LLM Error: " ++ msg) = false.
Proof.
  destruct j; cbn [py_strip]; intros H; inversion H; subst; vm_compute;
    reflexivity.
Qed.

Lemma extract_content_raised body msg :
  extract_content body = Raised msg ->
  str_in LGTM (lit "LLM Error: " ++ msg) = false.
Proof.
  unfold extract_content. intros H.
  apply attempt_bind_raised in H as [H | (choices & _ & H)];
    [exact (py_get_raised _ _ _ _ H)|].
  destruct (truthy choices).
  - apply attempt_bind_raised in H as [H | (first & _ & H)];
      [exact (py_first_raised _ _ H)|].
    apply attempt_bind_raised in H as [H | (message & _ & H)];
      [exact (py_get_raised _ _ _ _ H)|].
    apply attempt_bind_raised in H as [H | (content & _ & H)];
      [exact (py_get_raised _ _ _ _ H)|].
    exact (py_strip_raised _ _ H).
  - apply attempt_bind_raised in H as [H | (response & _ & H)];
      [exact (py_get_raised _ _ _ _ H)|].
    exact (py_strip_raised _ _ H).
Qed.

(** X7.  Lines 95-97: a reply with a non-empty list of choices is read at
    [choices[0].message.content]; the other choices and the other keys of
    the reply, [response] among them, are not looked at, and whitespace
    around the content does not change the verdict. *)
Theorem chat_reply_read items first others message text :
  dict_lookup (lit "choices") items = Some (JList (JDict first :: others)) ->
  dict_lookup (lit "message") first = Some (JDict message) ->
  dict_lookup (lit "content") message = Some (JStr text) ->
  review_of (JsonBody (JDict items)) = strip text
  /\ (verdict_of (review_of (JsonBody (JDict items))) = CLEAN
      <-> occurs_in LGTM text).
Proof.
  intros Hc Hm Ht.
  assert (review_of (JsonBody (JDict items)) = strip text) as ->.
  { unfold review_of, try_block, extract_content.
    cbn [py_get attempt_bind]. rewrite Hc.
    cbn [truthy length Nat.eqb negb py_first attempt_bind py_get].
    rewrite Hm. cbn [attempt_bind py_get]. rewrite Ht. reflexivity. }
  split; [reflexivity|].
  rewrite verdict_clean, str_in_LGTM_strip. apply str_in_spec.
Qed.

(** X8.  Lines 98-99: without choices (the key is missing, or holds null, an
    empty list or another false value) the reply is read at [response]; a
    reply with neither yields the empty text, which the caller counts as
    flagged. *)
Theorem reply_without_choices items :
  match dict_lookup (lit "choices") items with
  | Some choices => truthy choices = false
  | None => True
  end ->
  review_of (JsonBody (JDict items))
  = match dict_lookup (lit "response") items with
    | None => []
    | Some (JStr text) => strip text
    | Some other =>
        lit "LLM Error: '" ++ lit (type_name other)
        ++ lit "' object has no attribute 'strip'"
    end
  /\ (dict_lookup (lit "response") items = None ->
      verdict_of (review_of (JsonBody (JDict items))) = FLAGGED []).
Proof.
  intros Hc.
  assert (review_of (JsonBody (JDict items))
          = match dict_lookup (lit "response") items with
            | None => []
            | Some (JStr text) => strip text
            | Some other =>
                lit "LLM Error: '" ++ lit (type_name other)
                ++ lit "' object has no attribute 'strip'"
            end) as H.
  { unfold review_of, try_block, extract_content. cbn [py_get attempt_bind].
    assert (truthy match dict_lookup (lit "choices") items with
                   | Some v => v
                   | None => JList []
                   end = false) as ->.
    { destruct (dict_lookup (lit "choices") items); [exact Hc | reflexivity]. }
    destruct (dict_lookup (lit "response") items) as [[]|]; reflexivity. }
  split; [exact H|]. intros Hr. rewrite H, Hr. reflexivity.
Qed.

(** X9.  Lines 95-101: when the reply has a JSON body that cannot be read (a
    value of the wrong type, an empty string where a list is expected), the
    text made of the exception never contains the token, so the caller
    counts the request as flagged. *)
Theorem unreadable_reply_flagged body msg :
  extract_content body = Raised msg ->
  review_of (JsonBody body) = lit "LLM Error: " ++ msg
  /\ verdict_of (review_of (JsonBody body)) = FLAGGED (lit "LLM Error: " ++ msg).
Proof.
  intros H. pose proof (extract_content_raised _ _ H) as Hs.
  unfold review_of, try_block. rewrite H. split; [reflexivity|].
  unfold verdict_of. rewrite Hs. reflexivity.
Qed.

(** X10.  Lines 66-101: [ask_llm] makes one request and returns; the
    reviewer object stays as it is; the text it returns has no whitespace at
    its ends or starts with [LLM Error: ]. *)
Theorem ask_llm_returns file_name content is_partial st :
  exists review,
    ask_llm endpoint file_name content is_partial st
    = (Ok review,
       {| self := self st;
          trace := trace st ++ [HttpPost file_name content is_partial] |})
    /\ (is_stripped review = true
        \/ startswith (lit "LLM Error: ") review = true).
Proof.
  exists (review_of (endpoint (trace st) file_name content is_partial)).
  split; [reflexivity|].
  unfold review_of.
  destruct (try_block _) as [text|msg] eqn:E.
  - left. destruct (endpoint (trace st) file_name content is_partial);
      try discriminate.
    apply extract_content_done in E as [s ->]. apply strip_is_stripped.
  - right. apply startswith_spec. exists msg. reflexivity.
Qed.

End Reply.

Lemma chat_reply_read_witness :
  dict_lookup (lit "choices") reply_items_both
  = Some (JList [JDict chat_choice; JNull])
  /\ review_of (JsonBody (JDict reply_items_both)) = lit "- unused import".
Proof.
  split; [reflexivity|].
  rewrite (proj1 (chat_reply_read reply_items_both chat_choice [JNull]
                    chat_content (lit " - unused import " ++ [NL])
                    eq_refl eq_refl eq_refl)).
  vm_compute. reflexivity.
Defined.

Lemma reply_without_choices_witness :
  match dict_lookup (lit "choices") [(lit "choices", JNull)] with
  | Some choices => truthy choices = false
  | None => True
  end
  /\ verdict_of (review_of (JsonBody (JDict [(lit "choices", JNull)])))
     = FLAGGED [].
Proof.
  assert (match dict_lookup (lit "choices") [(lit "choices", JNull)] with
          | Some choices => truthy choices = false
          | None => True
          end) as H by reflexivity.
  split; [exact H|].
  exact (proj2 (reply_without_choices [(lit "choices", JNull)] H) eq_refl).
Defined.

Lemma unreadable_reply_flagged_witness :
  extract_content (JList [JStr LGTM])
  = Raised (lit "'list' object has no attribute 'get'")
  /\ verdict_of (review_of (JsonBody (JList [JStr LGTM])))
     = FLAGGED (lit "LLM Error: 'list' object has no attribute 'get'").
Proof.
  split; [reflexivity|].
  exact (proj2 (unreadable_reply_flagged (JList [JStr LGTM]) _ eq_refl)).
Defined.

(** ** How a run ends, and what it requests *)

Section Runs.

Variable CHUNK_LIMIT : Z.
Variable endpoint : list event -> str -> str -> bool -> http_result.
Variable shell : list event -> str -> shell_result.

Lemma calm_ret (A : Type) (a : A) : calm CHUNK_LIMIT (ret a).
Proof.
  intros st r st' H. inversion H; subst. exists [].
  split; [symmetry; apply app_nil_r|]. repeat split.
Qed.

Lemma calm_get_self : calm CHUNK_LIMIT get_self.
Proof.
  intros st r st' H. inversion H; subst. exists [].
  split; [symmetry; apply app_nil_r|]. repeat split.
Qed.

Lemma calm_emit e :
  whole_within CHUNK_LIMIT e = true -> is_report_output e = false ->
  calm CHUNK_LIMIT (emit e).
Proof.
  intros Hw Ho st r st' H. inversion H; subst. exists [e].
  split; [reflexivity|]. cbn [forallb]. rewrite Hw.
  split; [reflexivity|]. split; [|exact I].
  unfold report_outputs. cbn [filter]. rewrite Ho. reflexivity.
Qed.

Lemma stops_as_known_app e before events :
  stops_as_known e events -> stops_as_known e (before ++ events).
Proof.
  destruct e as [name|name|code]; cbn [stops_as_known]; try (intros H; exact H).
  intros [Hc (b & msg & ->)]. split; [exact Hc|].
  exists (before ++ b), msg. apply app_assoc.
Qed.

Lemma report_outputs_app a b :
  report_outputs (a ++ b) = report_outputs a ++ report_outputs b.
Proof. apply filter_app. Qed.

(** A calm statement followed by statements that are calm for the values
    the first one returns. *)
Lemma calm_bind_post (A B : Type) (Q : A -> Prop) (c : M A) (k : A -> M B) :
  calm CHUNK_LIMIT c ->
  (forall st a st', c st = (Ok a, st') -> Q a) ->
  (forall a, Q a -> calm CHUNK_LIMIT (k a)) ->
  calm CHUNK_LIMIT (bind c k).
Proof.
  intros Hc HQ Hk st r st' H.
  destruct (bind_inv _ _ _ _ _ _ _ H) as [(a & st1 & H1 & H2) | (e & H1 & ->)].
  - destruct (Hc _ _ _ H1) as (ev1 & Ht1 & Hw1 & Ho1 & _).
    destruct (Hk a (HQ _ _ _ H1) _ _ _ H2) as (ev2 & Ht2 & Hw2 & Ho2 & Hr).
    exists (ev1 ++ ev2).
    split; [rewrite Ht2, Ht1; symmetry; apply app_assoc|].
    split; [rewrite forallb_app, Hw1, Hw2; reflexivity|].
    split; [rewrite report_outputs_app, Ho1, Ho2; reflexivity|].
    destruct r as [b|e]; [exact I | apply stops_as_known_app, Hr].
  - exact (Hc _ _ _ H1).
Qed.

Lemma calm_bind (A B : Type) (c : M A) (k : A -> M B) :
  calm CHUNK_LIMIT c -> (forall a, calm CHUNK_LIMIT (k a)) ->
  calm CHUNK_LIMIT (bind c k).
Proof.
  intros Hc Hk. apply (calm_bind_post _ _ (fun _ => True)).
  - exact Hc.
  - intros; exact I.
  - intros a _. apply Hk.
Qed.

Lemma calm_run_command cmd : calm CHUNK_LIMIT (run_command shell cmd).
Proof.
  intros st r st' H. unfold run_command in H.
  destruct (shell (trace st) cmd) as [stdout|msg].
  - inversion H; subst. exists [ShellCommand cmd].
    split; [reflexivity|]. repeat split.
  - cbv [bind emit raise] in H. inversion H; subst.
    exists [ShellCommand cmd; git_error_notice msg].
    split; [cbn [log trace]; rewrite <- app_assoc; reflexivity|].
    split; [reflexivity|]. split; [reflexivity|].
    split; [reflexivity|]. exists [ShellCommand cmd], msg. reflexivity.
Qed.

Lemma calm_get_changed_files merge_base :
  calm CHUNK_LIMIT (get_changed_files shell merge_base).
Proof.
  unfold get_changed_files.
  apply calm_bind; [apply calm_get_self | intros me].
  apply calm_bind; [apply calm_run_command | intros stats].
  apply calm_ret.
Qed.

Lemma calm_get_file_diff merge_base file_name :
  calm CHUNK_LIMIT (get_file_diff shell merge_base file_name).
Proof.
  unfold get_file_diff.
  apply calm_bind; [apply calm_get_self | intros me].
  apply calm_run_command.
Qed.

Lemma calm_review_diff merge_base file_name raw_diff final_review :
  calm CHUNK_LIMIT
    (review_diff CHUNK_LIMIT endpoint merge_base file_name raw_diff
       final_review).
Proof.
  intros st r st' H.
  destruct (Z.ltb_spec CHUNK_LIMIT (Z.of_nat (length raw_diff))) as [Hlt|Hge].
  - rewrite review_diff_over_limit in H by exact Hlt.
    inversion H; subst. exists [].
    split; [symmetry; apply app_nil_r|]. repeat split.
  - rewrite review_diff_within_limit in H by exact Hge.
    inversion H; subst. exists [HttpPost file_name raw_diff false].
    split; [reflexivity|]. cbn [forallb whole_within negb andb].
    apply Z.leb_le in Hge. rewrite Hge. repeat split.
Qed.

Lemma calm_store_result file_name review :
  calm CHUNK_LIMIT (store_result file_name (Some review)).
Proof.
  intros st r st' H. rewrite store_result_run in H. inversion H; subst.
  destruct (verdict_of review); eexists; (split; [reflexivity|]);
    repeat split.
Qed.

Lemma calm_review_file merge_base file_name final_review :
  calm CHUNK_LIMIT
    (review_file CHUNK_LIMIT endpoint shell merge_base file_name final_review).
Proof.
  unfold review_file.
  apply calm_bind; [apply calm_emit; reflexivity | intros _].
  apply calm_bind; [apply calm_get_file_diff | intros raw_diff].
  apply (calm_bind_post _ _ (fun r => exists review, r = Some review)).
  - apply calm_review_diff.
  - intros st a st' H. exact (review_diff_ok _ _ _ _ _ _ _ _ _ H).
  - intros a [review ->].
    apply calm_bind; [apply calm_store_result | intros _].
    apply calm_bind; [apply calm_emit; reflexivity | intros _].
    apply calm_ret.
Qed.

Lemma calm_review_files merge_base files : forall final_review,
  calm CHUNK_LIMIT
    (review_files CHUNK_LIMIT endpoint shell merge_base files final_review).
Proof.
  induction files as [|file_name rest IH]; intros final_review;
    cbn [review_files].
  - apply calm_ret.
  - apply calm_bind; [apply calm_review_file | intros fr]. apply IH.
Qed.

Lemma calm_ends_well (A : Type) (c : M A) :
  calm CHUNK_LIMIT c -> ends_well CHUNK_LIMIT c.
Proof.
  intros Hc st r st' H.
  destruct (Hc _ _ _ H) as (events & Ht & Hw & Ho & Hr).
  exists events. split; [exact Ht|]. split; [exact Hw|].
  destruct r; [exact I | split; assumption].
Qed.

Lemma ends_well_bind (A B : Type) (c : M A) (k : A -> M B) :
  calm CHUNK_LIMIT c -> (forall a, ends_well CHUNK_LIMIT (k a)) ->
  ends_well CHUNK_LIMIT (bind c k).
Proof.
  intros Hc Hk st r st' H.
  destruct (bind_inv _ _ _ _ _ _ _ H) as [(a & st1 & H1 & H2) | (e & H1 & ->)].
  - destruct (Hc _ _ _ H1) as (ev1 & Ht1 & Hw1 & Ho1 & _).
    destruct (Hk a _ _ _ H2) as (ev2 & Ht2 & Hw2 & Hr).
    exists (ev1 ++ ev2).
    split; [rewrite Ht2, Ht1; symmetry; apply app_assoc|].
    split; [rewrite forallb_app, Hw1, Hw2; reflexivity|].
    destruct r as [b|e]; [exact I|]. destruct Hr as [Hs Ho2].
    split; [apply stops_as_known_app, Hs|].
    rewrite report_outputs_app, Ho1, Ho2. reflexivity.
  - apply (calm_ends_well _ _ Hc _ _ _ H1).
Qed.

Lemma ends_well_save_report : ends_well CHUNK_LIMIT save_report.
Proof.
  intros st r st' H. rewrite save_report_run in H. inversion H; subst.
  destruct (report_lines (self st)); eexists; cbn [log trace];
    rewrite <- ?app_assoc; (split; [reflexivity|]); split; reflexivity || exact I.
Qed.

Lemma ends_well_generate_report :
  ends_well CHUNK_LIMIT (generate_report CHUNK_LIMIT endpoint shell).
Proof.
  unfold generate_report.
  apply ends_well_bind; [apply calm_get_self | intros me].
  apply ends_well_bind; [apply calm_emit; reflexivity | intros _].
  apply ends_well_bind; [apply calm_run_command | intros merge_base].
  apply ends_well_bind; [apply calm_get_changed_files | intros files].
  destruct files as [|file_name rest].
  - apply calm_ends_well, calm_emit; reflexivity.
  - apply ends_well_bind; [apply calm_emit; reflexivity | intros _].
    apply ends_well_bind; [apply calm_review_files | intros _].
    apply ends_well_save_report.
Qed.


(** X12.  Lines 128-140, over whole runs: however a run ends, every request
    it has made is over a whole diff of at most [CHUNK_LIMIT] characters; a
    request marked partial is never made. *)
Theorem requests_whole_within_limit st r st' :
  generate_report CHUNK_LIMIT endpoint shell st = (r, st') ->
  exists events,
    trace st' = trace st ++ events
    /\ Forall (fun e =>
                 forall file_name content is_partial,
                   e = HttpPost file_name content is_partial ->
                   is_partial = false
                   /\ (Z.of_nat (length content) <= CHUNK_LIMIT)%Z)
         events.
Proof.
  intros H.
  destruct (ends_well_generate_report _ _ _ H) as (events & Ht & Hw & _).
  exists events. split; [exact Ht|].
  apply Forall_forall. intros e Hin f content p ->.
  rewrite forallb_forall in Hw. specialize (Hw _ Hin).
  cbn [whole_within] in Hw. apply andb_true_iff in Hw as [Hp Hl].
  apply negb_true_iff in Hp. apply Z.leb_le in Hl. split; assumption.
Qed.

End Runs.

(** ** Runs that return *)

Section Returns.

Variable CHUNK_LIMIT : Z.
Variable endpoint : list event -> str -> str -> bool -> http_result.
Variable shell : list event -> str -> shell_result.

Lemma review_file_returns merge_base file_name final_review st r st' :
  review_file CHUNK_LIMIT endpoint shell merge_base file_name final_review st
  = (Ok r, st') ->
  exists raw_diff review,
    r = Some review
    /\ reviewed_diff CHUNK_LIMIT shell merge_base (source_branch (self st)) file_name raw_diff
    /\ trace st'
       = trace st
         ++ file_events merge_base (source_branch (self st))
              (file_name, (raw_diff, review))
    /\ self st' = with_entries (self st) (entry_of file_name review).
Proof.
  unfold review_file. intros H.
  destruct (bind_inv _ _ _ _ _ _ _ H) as [(u & st1 & H1 & H2) | (e & H1 & _)];
    [|discriminate H1].
  clear H. inversion H1; subst; clear H1.
  destruct (bind_inv _ _ _ _ _ _ _ H2) as [(raw & st2 & H3 & H4) | (e & _ & He)];
    [|discriminate He].
  clear H2. unfold get_file_diff, bind, get_self in H3.
  destruct (run_command_result _ _ _ _ _ H3)
    as (Hs2 & stdout & Hout & Hraw & _ & _ & Ht2).
  destruct (bind_inv _ _ _ _ _ _ _ H4) as [(fr & st3 & H5 & H6) | (e & _ & He)];
    [|discriminate He].
  clear H4.
  destruct (Z.ltb_spec CHUNK_LIMIT (Z.of_nat (length raw))) as [Hlt|Hge].
  { rewrite review_diff_over_limit in H5 by exact Hlt. discriminate. }
  rewrite review_diff_within_limit in H5 by exact Hge.
  inversion H5; subst fr st3; clear H5.
  unfold bind in H6. rewrite store_result_run in H6. cbv [emit ret] in H6.
  inversion H6; subst r st'; clear H6.
  exists raw, (review_of (endpoint (trace st2) file_name raw false)).
  split; [reflexivity|]. split; [|split].
  - split; [exact Hge|]. eexists _, stdout. split; [exact Hout | exact Hraw].
  - unfold file_events, diff_command. cbn [fst snd log self].
    destruct (verdict_of _); cbn [log trace]; rewrite Ht2; cbn [log trace];
      rewrite <- !app_assoc; reflexivity.
  - unfold entry_of.
    destruct (verdict_of _) eqn:E; cbn [log self]; rewrite Hs2; cbn [log self].
    + symmetry. apply with_entries_nil.
    + reflexivity.
Qed.

Lemma review_files_returns merge_base files : forall final_review st st',
  review_files CHUNK_LIMIT endpoint shell merge_base files final_review st
  = (Ok tt, st') ->
  exists diffs reviews,
    length reviews = length files
    /\ Forall2 (reviewed_diff CHUNK_LIMIT shell merge_base (source_branch (self st))) files diffs
    /\ trace st'
       = trace st
         ++ flat_map (file_events merge_base (source_branch (self st)))
              (combine files (combine diffs reviews))
    /\ self st' = with_entries (self st) (report_entries (combine files reviews)).
Proof.
  induction files as [|file_name rest IH]; intros final_review st st' H.
  - inversion H; subst. exists [], [].
    split; [reflexivity|]. split; [constructor|].
    split; [symmetry; apply app_nil_r | symmetry; apply with_entries_nil].
  - cbn [review_files] in H.
    destruct (bind_inv _ _ _ _ _ _ _ H) as [(fr & st1 & H1 & H2) | (e & _ & He)];
      [|discriminate He].
    clear H.
    destruct (review_file_returns _ _ _ _ _ _ H1)
      as (raw & review & -> & Hd & Ht1 & Hs1).
    destruct (IH _ _ _ H2) as (diffs & reviews & Hl & Hf & Ht2 & Hs2).
    assert (source_branch (self st1) = source_branch (self st)) as Hb
      by (rewrite Hs1; reflexivity).
    rewrite Hb in Hf, Ht2.
    exists (raw :: diffs), (review :: reviews).
    split; [cbn [length]; rewrite Hl; reflexivity|].
    split; [constructor; assumption|]. split.
    + rewrite Ht2, Ht1. cbn [combine flat_map]. rewrite <- app_assoc.
      reflexivity.
    + rewrite Hs2, Hs1, with_entries_app. reflexivity.
Qed.

Lemma generate_report_returns st st' :
  generate_report CHUNK_LIMIT endpoint shell st = (Ok tt, st') ->
  exists merge_base files diffs reviews,
    length reviews = length files
    /\ listed_files shell merge_base (source_branch (self st)) files
    /\ Forall2 (reviewed_diff CHUNK_LIMIT shell merge_base
                  (source_branch (self st)))
         files diffs
    /\ trace st'
       = trace st
         ++ [ConsolePrint (lit "[bold blue]Starting Review:[/bold blue] "
                           ++ target_branch (self st) ++ lit " <- "
                           ++ source_branch (self st));
             ShellCommand (merge_base_command (target_branch (self st))
                             (source_branch (self st)));
             ShellCommand (name_only_command merge_base
                             (source_branch (self st)))]
         ++ match files with
            | [] => [no_changes_notice]
            | _ :: _ =>
                ProgressAddTask (lit "[green]Analyzing files...") (length files)
                :: flat_map (file_events merge_base (source_branch (self st)))
                     (combine files (combine diffs reviews))
                ++ save_events (self st')
            end
    /\ self st' = with_entries (self st) (report_entries (combine files reviews)).
Proof.
  unfold generate_report. intros H.
  destruct (bind_inv _ _ _ _ _ _ _ H) as [(me & st0 & H0 & H1) | (e & H0 & _)];
    [|discriminate H0].
  clear H. inversion H0; subst me st0; clear H0.
  destruct (bind_inv _ _ _ _ _ _ _ H1) as [(u & st1 & H2 & H3) | (e & H2 & _)];
    [|discriminate H2].
  clear H1. destruct u. inversion H2; subst st1; clear H2.
  destruct (bind_inv _ _ _ _ _ _ _ H3) as [(mb & st2 & H4 & H5) | (e & _ & He)];
    [|discriminate He].
  clear H3.
  destruct (run_command_result _ _ _ _ _ H4) as (Hs2 & _ & _ & _ & _ & _ & Ht2).
  cbn [log self trace] in Hs2, Ht2.
  destruct (bind_inv _ _ _ _ _ _ _ H5) as [(files & st3 & H6 & H7) | (e & _ & He)];
    [|discriminate He].
  clear H5. unfold get_changed_files, bind, get_self in H6.
  destruct (run_command shell _ st2) as [[stats|e] st3'] eqn:H8;
    [|discriminate H6].
  destruct (run_command_result _ _ _ _ _ H8)
    as (Hs3 & stdout & Hout & Hstats & _ & _ & Ht3).
  inversion H6; subst files st3'; clear H6.
  rewrite Hs2 in Ht3, Hout.
  fold (name_only_command mb (source_branch (self st))) in Ht3, Hout.
  assert (listed_files shell mb (source_branch (self st))
            (filter kept_name (split_on NL stats))) as Hlist.
  { exists (trace st2), stdout. split; [exact Hout|]. rewrite Hstats.
    reflexivity. }
  exists mb, (filter kept_name (split_on NL stats)).
  change (filter _ (split_on NL stats)) with (filter kept_name (split_on NL stats))
    in H7.
  destruct (filter kept_name (split_on NL stats)) as [|file_name rest] eqn:Ef.
  - inversion H7; subst st'; clear H7. exists [], [].
    split; [reflexivity|]. split; [exact Hlist|]. split; [constructor|]. split.
    + cbn [log trace]. rewrite Ht3, Ht2. rewrite <- !app_assoc. reflexivity.
    + cbn [log self]. rewrite Hs3, Hs2. symmetry. apply with_entries_nil.
  - destruct (bind_inv _ _ _ _ _ _ _ H7) as [(u & st4 & H9 & H10) | (e & H9 & _)];
      [|discriminate H9].
    clear H7. destruct u. inversion H9; subst st4; clear H9.
    destruct (bind_inv _ _ _ _ _ _ _ H10) as [([] & st5 & H11 & H12) | (e & _ & He)];
      [|discriminate He].
    clear H10.
    destruct (review_files_returns _ _ _ _ _ H11)
      as (diffs & reviews & Hl & Hf & Ht5 & Hs5).
    cbn [log self trace] in Hf, Ht5, Hs5. rewrite Hs3, Hs2 in Hf, Ht5, Hs5.
    rewrite save_report_run in H12.
    assert (st' = match report_lines (self st5) with
                  | [] => log no_issues_notice st5
                  | _ :: _ => log saved_notice (log (report_file (self st5)) st5)
                  end) as Hst by congruence.
    clear H12.
    assert (self st' = self st5) as Hs6
      by (rewrite Hst; destruct (report_lines (self st5)); reflexivity).
    exists diffs, reviews.
    split; [exact Hl|]. split; [exact Hlist|]. split; [exact Hf|].
    split; [|congruence].
    unfold save_events. rewrite Hs6.
    rewrite Hst. destruct (report_lines (self st5)); cbn [log trace];
      rewrite Ht5, Ht3, Ht2; rewrite <- !app_assoc; reflexivity.
Qed.

Lemma requests_app a b : requests (a ++ b) = requests a ++ requests b.
Proof. apply filter_app. Qed.

Lemma requests_file_events merge_base source_branch files :
  forall diffs reviews,
    length diffs = length files -> length reviews = length files ->
    requests (flat_map (file_events merge_base source_branch)
                (combine files (combine diffs reviews)))
    = map (fun fd => HttpPost (fst fd) (snd fd) false) (combine files diffs).
Proof.
  induction files as [|f files IH]; intros [|d diffs] [|r reviews] Hd Hr;
    try discriminate; try reflexivity.
  cbn [combine flat_map map]. rewrite requests_app, IH.
  - reflexivity.
  - cbn [length] in Hd. lia.
  - cbn [length] in Hr. lia.
Qed.

(** X13.  Lines 103-153: what a run that returns has done, in order.  It
    printed the start line and ran the two commands; with no changed file it
    printed that there are no changes, and nothing more; otherwise it set up
    the progress display, and for each changed file, in the order of the
    listing, it updated the display, ran the diff command of the file, made
    one request, printed the verdict and advanced the display; then
    [save_report] wrote the file or printed the notice of a clean run. *)
Theorem returning_run_trace st st' :
  generate_report CHUNK_LIMIT endpoint shell st = (Ok tt, st') ->
  exists merge_base files diffs reviews,
    listed_files shell merge_base (source_branch (self st)) files
    /\ length diffs = length files /\ length reviews = length files
    /\ trace st'
       = trace st
         ++ [ConsolePrint (lit "[bold blue]Starting Review:[/bold blue] "
                           ++ target_branch (self st) ++ lit " <- "
                           ++ source_branch (self st));
             ShellCommand (merge_base_command (target_branch (self st))
                             (source_branch (self st)));
             ShellCommand (name_only_command merge_base
                             (source_branch (self st)))]
         ++ match files with
            | [] => [no_changes_notice]
            | _ :: _ =>
                ProgressAddTask (lit "[green]Analyzing files...") (length files)
                :: flat_map (file_events merge_base (source_branch (self st)))
                     (combine files (combine diffs reviews))
                ++ save_events (self st')
            end.
Proof.
  intros H.
  destruct (generate_report_returns _ _ H)
    as (mb & files & diffs & reviews & Hl & Hlist & Hf & Ht & _).
  exists mb, files, diffs, reviews. split; [exact Hlist|].
  split; [symmetry; exact (Forall2_length Hf)|]. split; [exact Hl | exact Ht].
Qed.

(** X14.  Lines 123-140, over a run that returns: the requests of the run
    are one for each changed file, in the order of the listing, each over
    the whole diff of the file, which is what the diff command of the file
    printed, stripped, and has at most [CHUNK_LIMIT] characters. *)
Theorem one_request_per_file st st' :
  generate_report CHUNK_LIMIT endpoint shell st = (Ok tt, st') ->
  exists merge_base files diffs,
    listed_files shell merge_base (source_branch (self st)) files
    /\ Forall2 (fun file_name raw_diff =>
               (Z.of_nat (length raw_diff) <= CHUNK_LIMIT)%Z
               /\ exists events stdout,
                    shell events
                      (diff_command merge_base (source_branch (self st))
                         file_name)
                    = Output stdout
                    /\ raw_diff = strip stdout)
      files diffs
    /\ requests (trace st')
       = requests (trace st)
         ++ map (fun fd => HttpPost (fst fd) (snd fd) false)
              (combine files diffs).
Proof.
  intros H.
  destruct (generate_report_returns _ _ H)
    as (mb & files & diffs & reviews & Hl & Hlist & Hf & Ht & _).
  exists mb, files, diffs. split; [exact Hlist|]. split; [exact Hf|].
  rewrite Ht, !requests_app. f_equal.
  destruct files as [|f files].
  - apply Forall2_length in Hf. destruct diffs; [reflexivity | discriminate].
  - change (requests (_ :: _ ++ save_events (self st')))
      with (requests (flat_map (file_events mb (source_branch (self st)))
                        (combine (f :: files) (combine diffs reviews))
                      ++ save_events (self st'))).
    rewrite requests_app, requests_file_events.
    + unfold save_events.
      destruct (report_lines (self st')); cbn; rewrite app_nil_r; reflexivity.
    + symmetry. exact (Forall2_length Hf).
    + exact Hl.
Qed.

Lemma report_entries_flagged reviewed :
  Forall (fun entry =>
            exists file_name text,
              entry = report_line file_name text
              /\ str_in LGTM text = false)
    (report_entries reviewed).
Proof.
  unfold report_entries. induction reviewed as [|[f review] rest IH];
    cbn [flat_map]; [constructor|].
  apply Forall_app. split; [|exact IH].
  unfold entry_of, verdict_of. cbn [fst snd].
  destruct (str_in LGTM review) eqn:E; constructor; [|constructor].
  exists f, review. split; [reflexivity | exact E].
Qed.

(** X15.  Lines 21-24 and 143-147, over a run from any state of the reviewer
    object: the branches stay as they are and the report only grows; what is
    there before the run stays in front, and every entry added is the block
    of a file whose final review does not contain the token.  This holds
    however the run ends. *)
Theorem reviewer_object_grows st r st' :
  generate_report CHUNK_LIMIT endpoint shell st = (r, st') ->
  target_branch (self st') = target_branch (self st)
  /\ source_branch (self st') = source_branch (self st)
  /\ exists added,
       report_lines (self st') = report_lines (self st) ++ added
       /\ Forall (fun entry =>
                    exists file_name text,
                      entry = report_line file_name text
                      /\ str_in LGTM text = false)
            added.
Proof.
  intros H.
  destruct (generate_report_effect _ _ _ _ _ _ H)
    as (mb & done & reviews & st0 & st1 & _ & Hs & _).
  rewrite Hs. split; [reflexivity|]. split; [reflexivity|].
  exists (report_entries (combine done reviews)).
  split; [reflexivity | apply report_entries_flagged].
Qed.


End Returns.

Section NegativeLimit.

Variable CHUNK_LIMIT : Z.
Variable endpoint : list event -> str -> str -> bool -> http_result.
Variable shell : list event -> str -> shell_result.

(** X17.  Lines 15 and 128: with a negative [CHUNK_LIMIT] every diff is over
    the limit, the empty one included, so a run returns only when there is
    no changed file to review; it then ends on the line that says so. *)
Theorem negative_limit_reviews_nothing st st' :
  (CHUNK_LIMIT < 0)%Z ->
  generate_report CHUNK_LIMIT endpoint shell st = (Ok tt, st') ->
  requests (trace st') = requests (trace st)
  /\ self st' = self st
  /\ exists events, trace st' = events ++ [no_changes_notice].
Proof.
  intros Hneg H.
  destruct (generate_report_returns _ _ _ _ _ H)
    as (mb & files & diffs & reviews & Hl & _ & Hf & Ht & Hs).
  destruct files as [|f files].
  - destruct reviews; [|discriminate Hl]. cbn [combine report_entries flat_map] in Hs.
    rewrite with_entries_nil in Hs.
    split; [|split; [exact Hs|]].
    + rewrite Ht, requests_app. cbn. apply app_nil_r.
    + eexists. rewrite Ht, app_assoc. reflexivity.
  - inversion Hf as [|? raw ? ? [Hle _] _]; subst. lia.
Qed.

End NegativeLimit.

Lemma negative_limit_reviews_nothing_witness :
  (-1 < 0)%Z
  /\ generate_report (-1) endpoint_lgtm (sample_shell [] diff_one_hunk)
       (start (lit "main") (lit "feature"))
     = (Ok tt,
        {| self := new_reviewer (lit "main") (lit "feature");
           trace :=
             [ConsolePrint (lit "[bold blue]Starting Review:[/bold blue] main <- feature");
              ShellCommand (lit "git merge-base origin/main feature");
              ShellCommand (lit "git diff --name-only abc123 feature");
              no_changes_notice] |})
  /\ requests
       [ConsolePrint (lit "[bold blue]Starting Review:[/bold blue] main <- feature");
        ShellCommand (lit "git merge-base origin/main feature");
        ShellCommand (lit "git diff --name-only abc123 feature");
        no_changes_notice]
     = [].
Proof.
  assert (-1 < 0)%Z as Hneg by lia.
  assert (generate_report (-1) endpoint_lgtm (sample_shell [] diff_one_hunk)
            (start (lit "main") (lit "feature"))
          = (Ok tt,
             {| self := new_reviewer (lit "main") (lit "feature");
                trace :=
                  [ConsolePrint (lit "[bold blue]Starting Review:[/bold blue] main <- feature");
                   ShellCommand (lit "git merge-base origin/main feature");
                   ShellCommand (lit "git diff --name-only abc123 feature");
                   no_changes_notice] |})) as H by (vm_compute; reflexivity).
  split; [exact Hneg|]. split; [exact H|].
  exact (proj1 (negative_limit_reviews_nothing _ _ _ _ _ Hneg H)).
Defined.


Lemma requests_whole_within_limit_witness :
  generate_report 500 endpoint_comment (sample_shell (lit "a.py") diff_one_hunk)
    (start (lit "main") (lit "feature"))
  = (Ok tt, state_after_flagged_run)
  /\ exists events,
       trace state_after_flagged_run = [] ++ events
       /\ Forall (fun e =>
                    forall file_name content is_partial,
                      e = HttpPost file_name content is_partial ->
                      is_partial = false
                      /\ (Z.of_nat (length content) <= 500)%Z)
            events.
Proof.
  assert (generate_report 500 endpoint_comment
            (sample_shell (lit "a.py") diff_one_hunk)
            (start (lit "main") (lit "feature"))
          = (Ok tt, state_after_flagged_run)) as H by (vm_compute; reflexivity).
  split; [exact H|].
  exact (requests_whole_within_limit _ _ _ _ _ _ H).
Defined.

Lemma returning_run_trace_witness :
  generate_report 500 endpoint_comment (sample_shell (lit "a.py") diff_one_hunk)
    (start (lit "main") (lit "feature"))
  = (Ok tt, state_after_flagged_run)
  /\ exists merge_base files diffs reviews,
       listed_files (sample_shell (lit "a.py") diff_one_hunk) merge_base
         (lit "feature") files
       /\ length diffs = length files /\ length reviews = length files
       /\ trace state_after_flagged_run
          = [ConsolePrint (lit "[bold blue]Starting Review:[/bold blue] main <- feature");
             ShellCommand (merge_base_command (lit "main") (lit "feature"));
             ShellCommand (name_only_command merge_base (lit "feature"))]
            ++ match files with
               | [] => [no_changes_notice]
               | _ :: _ =>
                   ProgressAddTask (lit "[green]Analyzing files...") (length files)
                   :: flat_map (file_events merge_base (lit "feature"))
                        (combine files (combine diffs reviews))
                   ++ save_events (self state_after_flagged_run)
               end.
Proof.
  assert (generate_report 500 endpoint_comment
            (sample_shell (lit "a.py") diff_one_hunk)
            (start (lit "main") (lit "feature"))
          = (Ok tt, state_after_flagged_run)) as H by (vm_compute; reflexivity).
  split; [exact H|].
  exact (returning_run_trace _ _ _ _ _ H).
Defined.

Lemma one_request_per_file_witness :
  generate_report 500 endpoint_comment (sample_shell (lit "a.py") diff_one_hunk)
    (start (lit "main") (lit "feature"))
  = (Ok tt, state_after_flagged_run)
  /\ exists files diffs,
       length diffs = length files
       /\ requests (trace state_after_flagged_run)
          = map (fun fd => HttpPost (fst fd) (snd fd) false) (combine files diffs).
Proof.
  assert (generate_report 500 endpoint_comment
            (sample_shell (lit "a.py") diff_one_hunk)
            (start (lit "main") (lit "feature"))
          = (Ok tt, state_after_flagged_run)) as H by (vm_compute; reflexivity).
  split; [exact H|].
  destruct (one_request_per_file _ _ _ _ _ H)
    as (mb & files & diffs & _ & Hf & Hr).
  exists files, diffs.
  split; [symmetry; exact (Forall2_length Hf) | exact Hr].
Defined.

Lemma reviewer_object_grows_witness :
  generate_report 500 endpoint_comment (sample_shell (lit "a.py") diff_one_hunk)
    (start (lit "main") (lit "feature"))
  = (Ok tt, state_after_flagged_run)
  /\ target_branch (self state_after_flagged_run) = lit "main"
  /\ source_branch (self state_after_flagged_run) = lit "feature"
  /\ exists added,
       report_lines (self state_after_flagged_run) = [] ++ added
       /\ Forall (fun entry =>
                    exists file_name text,
                      entry = report_line file_name text
                      /\ str_in LGTM text = false)
            added.
Proof.
  assert (generate_report 500 endpoint_comment
            (sample_shell (lit "a.py") diff_one_hunk)
            (start (lit "main") (lit "feature"))
          = (Ok tt, state_after_flagged_run)) as H by (vm_compute; reflexivity).
  split; [exact H|].
  exact (reviewer_object_grows _ _ _ _ _ _ H).
Defined.

